(** * ipyparaview: the PVDisplay widget view (js/lib/widgets.js)

    A shallow embedding of the client-side view of the remote-rendering
    widget: the vector utilities, the spherical camera offset with its
    orbit / pan / dolly handlers, the publication throttle and the
    conversion of an incoming frame buffer into the displayed image.

    Number model.  JavaScript numbers are modelled as real numbers
    ([R]); rounding, NaN and the infinities are outside the model, so a
    result that depends on a division by zero is never relied upon.
    [Date.now()] returns an integral number of milliseconds and is
    modelled in [Z].  Bytes of typed arrays are [Byte.byte]. *)

From Stdlib Require Import Reals Lra Lia ZArith List Bool String.
From Stdlib Require Import Strings.Byte.
From stdpp Require Import base list.

Local Open Scope R_scope.

(* ===================================================================== *)
(** * Vector utilities (the closures at the top of [render]) *)
(* ===================================================================== *)

Module VecMath.

(** A JavaScript array of three numbers. *)
Record Vec3 : Type := mkVec3 { v0 : R; v1 : R; v2 : R }.

Definition norm (x : Vec3) : R :=
  sqrt (v0 x * v0 x + v1 x * v1 x + v2 x * v2 x).

Definition normalize (x : Vec3) : Vec3 :=
  let r := norm x in
  mkVec3 (v0 x / r) (v1 x / r) (v2 x / r).

Definition cross (x y : Vec3) : Vec3 :=
  mkVec3 (v1 x * v2 y - v2 x * v1 y)
         (v2 x * v0 y - v0 x * v2 y)
         (v0 x * v1 y - v1 x * v0 y).

(** [Math.atan2(y, x)] on real arguments: the angle in (-PI, PI] of the
    point (x, y); 0 at the origin. *)
Definition atan2 (y x : R) : R :=
  if Rlt_dec 0 x then atan (y / x)
  else if Rlt_dec x 0 then
         if Rle_dec 0 y then atan (y / x) + PI else atan (y / x) - PI
  else if Rlt_dec 0 y then PI / 2
  else if Rlt_dec y 0 then - (PI / 2)
  else 0.

Definition cartToSphr (x : Vec3) : Vec3 :=
  let r := norm x in
  mkVec3 r (atan2 (v0 x) (v2 x)) (asin (v1 x / r)).

Definition sphrToCart (x : Vec3) : Vec3 :=
  mkVec3 (v0 x * sin (v1 x) * cos (v2 x))
         (v0 x * sin (v2 x))
         (v0 x * cos (v1 x) * cos (v2 x)).

Definition vadd (x y : Vec3) : Vec3 :=
  mkVec3 (v0 x + v0 y) (v1 x + v1 y) (v2 x + v2 y).

Definition vscl (x : Vec3) (y : R) : Vec3 :=
  mkVec3 (v0 x * y) (v1 x * y) (v2 x * y).

End VecMath.

(* ===================================================================== *)
(** * The input controller: pointer and wheel handlers, throttle *)
(* ===================================================================== *)

Module Controller.
Import VecMath.

(** The object returned by [getNDC]: [{x: mx, y: my}]. *)
Record NDC : Type := mkNDC { ndc_x : R; ndc_y : R }.

(** [canvas.getBoundingClientRect()]. *)
Record Rect : Type := mkRect
  { rect_left : R; rect_right : R; rect_top : R; rect_bottom : R }.

(** The fields of a mouse event the handlers read. *)
Record MouseEvent : Type := mkMouseEvent { clientX : R; clientY : R }.

(** The fields of a wheel event the handler reads; [None] is a field
    the browser leaves [undefined]. *)
Record WheelEvent : Type := mkWheelEvent
  { wheelDelta : option R; detail : option R }.

(** What a handler does to the outside world, in program order. *)
Inductive Effect : Type :=
| ModelSet (camp camf : Vec3)      (* model.set({"camp": .., "camf": ..}) *)
| SaveChanges                      (* model.save_changes() *)
| Send (event data : string).      (* view.send({event: .., data: ..}) *)

(** The variables the closures of [render] share. *)
Record Ctl : Type := mkCtl
  { cp : Vec3;          (* spherical offset [radius, azimuth, elevation] *)
    cf : Vec3;          (* focal point *)
    cu : Vec3;          (* up vector *)
    m0 : NDC;           (* last mouse position *)
    lastMouseT : Z }.   (* time of the last publication *)

Definition set_cp (c : Vec3) (s : Ctl) : Ctl :=
  mkCtl c (cf s) (cu s) (m0 s) (lastMouseT s).
Definition set_cf (c : Vec3) (s : Ctl) : Ctl :=
  mkCtl (cp s) c (cu s) (m0 s) (lastMouseT s).
Definition set_m0 (m : NDC) (s : Ctl) : Ctl :=
  mkCtl (cp s) (cf s) (cu s) m (lastMouseT s).
Definition set_lastMouseT (t : Z) (s : Ctl) : Ctl :=
  mkCtl (cp s) (cf s) (cu s) (m0 s) t.

(** converts mouse from canvas space to NDC *)
Definition getNDC (rect : Rect) (e : MouseEvent) : NDC :=
  let mx := (clientX e - rect_left rect) / (rect_right rect - rect_left rect) in
  let my := (clientY e - rect_top rect) / (rect_top rect - rect_bottom rect) in
  mkNDC mx my.

Definition getMouseDelta (rect : Rect) (e : MouseEvent) (s : Ctl) : NDC * Ctl :=
  let m1 := getNDC rect e in
  let md := mkNDC (ndc_x m1 - ndc_x (m0 s)) (ndc_y m1 - ndc_y (m0 s)) in
  (md, set_m0 m1 s).

(** mouse event throttling--wait throttlems between mouse events *)
Definition throttlems : Z := (1000 / 20)%Z.

(** [updateCam], with the value [Date.now()] returns as argument [mt]. *)
Definition updateCam (mt : Z) (s : Ctl) : Ctl * list Effect :=
  if (throttlems <? mt - lastMouseT s)%Z then
    (set_lastMouseT mt s,
     [ModelSet (vadd (sphrToCart (cp s)) (cf s)) (cf s);
      SaveChanges;
      Send "updateCam" ""])
  else (s, []).

Definition phiLim : R := 15175 / 10000.

(** The two assignments of [handleDrag] to [cp[1]] and [cp[2]], for the
    already scaled deltas. *)
Definition orbit (dAz dEl : R) (c : Vec3) : Vec3 :=
  mkVec3 (v0 c) (v1 c - dAz) (Rmax (- phiLim) (Rmin phiLim (v2 c - dEl))).

Definition handleDrag (rect : Rect) (e : MouseEvent) (mt : Z) (s : Ctl)
  : Ctl * list Effect :=
  let '(md, s1) := getMouseDelta rect e s in
  updateCam mt (set_cp (orbit (5 * ndc_x md) (5 * ndc_y md) (cp s1)) s1).

(** The focal-point translation of [handleMidDrag]. *)
Definition pan (dx dy : R) (s : Ctl) : Vec3 :=
  let scl := 1 / (125 / 100) in
  let ccp := sphrToCart (cp s) in
  let h := normalize (cross ccp (cu s)) in
  let v := normalize (cross ccp h) in
  let d := vscl (vadd (vscl h dx) (vscl v dy)) (v0 (cp s) * scl) in
  vadd (cf s) d.

Definition handleMidDrag (rect : Rect) (e : MouseEvent) (mt : Z) (s : Ctl)
  : Ctl * list Effect :=
  let '(md, s1) := getMouseDelta rect e s in
  updateCam mt (set_cf (pan (ndc_x md) (ndc_y md) s1) s1).

Definition wheelScl : R := 40.
Definition dScl : R := 5 / 100.
Definition rlim : R := 1 / 100000.

(** JavaScript truthiness of a numeric field: [undefined] and [0] are
    falsy. *)
Definition truthy (o : option R) : option R :=
  match o with
  | Some v => if Req_dec_T v 0 then None else Some v
  | None => None
  end.

(** [e.wheelDelta ? e.wheelDelta/wheelScl : e.detail ? -e.detail : 0] *)
Definition wheelNorm (e : WheelEvent) : R :=
  match truthy (wheelDelta e) with
  | Some w => w / wheelScl
  | None => match truthy (detail e) with
            | Some t => - t
            | None => 0
            end
  end.

(** The assignment of [handleScroll] to [cp[0]]. *)
Definition dolly (d : R) (c : Vec3) : Vec3 :=
  mkVec3 (Rmax rlim (v0 c * (1 - dScl * d))) (v1 c) (v2 c).

Definition handleScroll (e : WheelEvent) (mt : Z) (s : Ctl)
  : Ctl * list Effect :=
  let d := wheelNorm e in
  if Req_dec_T d 0 then (s, [])
  else updateCam mt (set_cp (dolly d (cp s)) s).

(** The [mousedown] listener: it records the pointer position; which
    [mousemove] listener it attaches is abstracted, a run below being any
    sequence of handler invocations. *)
Definition handleMouseDown (rect : Rect) (e : MouseEvent) (s : Ctl) : Ctl :=
  set_m0 (getNDC rect e) s.

(** One handler invocation. *)
Inductive Call : Type :=
| CMouseDown (rect : Rect) (e : MouseEvent)
| CDrag (rect : Rect) (e : MouseEvent)
| CMidDrag (rect : Rect) (e : MouseEvent)
| CScroll (e : WheelEvent).

(** Handlers that end in a call of [updateCam]. *)
Definition attempts (c : Call) : bool :=
  match c with
  | CMouseDown _ _ => false
  | CDrag _ _ | CMidDrag _ _ => true
  | CScroll e => if Req_dec_T (wheelNorm e) 0 then false else true
  end.

(** Run one handler at time [mt]. *)
Definition step (s : Ctl) (tc : Z * Call) : Ctl * list Effect :=
  match snd tc with
  | CMouseDown rect e => (handleMouseDown rect e s, [])
  | CDrag rect e => handleDrag rect e (fst tc) s
  | CMidDrag rect e => handleMidDrag rect e (fst tc) s
  | CScroll e => handleScroll e (fst tc) s
  end.

(** Run a sequence of timed handler invocations; the trace pairs each
    invocation's time with the effects it had. *)
Fixpoint run (s : Ctl) (l : list (Z * Call)) : Ctl * list (Z * list Effect) :=
  match l with
  | [] => (s, [])
  | tc :: l' =>
      let '(s1, eff) := step s tc in
      let '(s2, tr) := run s1 l' in
      (s2, (fst tc, eff) :: tr)
  end.

(** The handlers' effect on the shared variables with the throttle taken
    out: what remains of a handler when [updateCam] is not called. *)
Definition applyLocal (s : Ctl) (c : Call) : Ctl :=
  match c with
  | CMouseDown rect e => handleMouseDown rect e s
  | CDrag rect e =>
      let '(md, s1) := getMouseDelta rect e s in
      set_cp (orbit (5 * ndc_x md) (5 * ndc_y md) (cp s1)) s1
  | CMidDrag rect e =>
      let '(md, s1) := getMouseDelta rect e s in
      set_cf (pan (ndc_x md) (ndc_y md) s1) s1
  | CScroll e =>
      let d := wheelNorm e in
      if Req_dec_T d 0 then s else set_cp (dolly d (cp s)) s
  end.

(** The camera state the remote side is sent: position and focal point. *)
Definition published (s : Ctl) : Vec3 * Vec3 :=
  (vadd (sphrToCart (cp s)) (cf s), cf s).

(** The three calls of a publication, for the state [s] at that time. *)
Definition publication (s : Ctl) : list Effect :=
  [ModelSet (fst (published s)) (snd (published s));
   SaveChanges;
   Send "updateCam" ""].

(** Trace entries that published. *)
Definition publishes (eff : list Effect) : bool :=
  match eff with [] => false | _ :: _ => true end.

(** The shared variables after a sequence of handlers, throttle taken
    out. *)
Definition locals (l : list Call) (s : Ctl) : Ctl :=
  fold_left applyLocal l s.

(** The times at which a trace published, in order. *)
Definition pubTimes (tr : list (Z * list Effect)) : list Z :=
  map fst (filter (fun te => publishes (snd te) = true) tr).

(** The publications of a trace that fall in the window [[a, a+w)]. *)
Definition inWindow (a w : Z) (ts : list Z) : list Z :=
  filter (fun t => (a <= t < a + w)%Z) ts.

(** Publication times each more than the throttle interval after the
    one before, the first after [last]. *)
Fixpoint spaced (last : Z) (ts : list Z) : Prop :=
  match ts with
  | [] => True
  | t :: ts' => (throttlems < t - last)%Z /\ spaced t ts'
  end.

(** A sequence of Orbit calls, each with its (azimuth, elevation) delta. *)
Definition orbits (ds : list (R * R)) (c : Vec3) : Vec3 :=
  fold_left (fun c d => orbit (fst d) (snd d) c) ds c.

Fixpoint sumAz (ds : list (R * R)) : R :=
  match ds with [] => 0 | d :: ds' => fst d + sumAz ds' end.

Fixpoint sumEl (ds : list (R * R)) : R :=
  match ds with [] => 0 | d :: ds' => snd d + sumEl ds' end.

End Controller.

(* ===================================================================== *)
(** * The display surface: frame buffer to displayed image *)
(* ===================================================================== *)

Module Display.
Local Open Scope nat_scope.

(** The canvas: its size and the image last put on it (RGBA bytes, row
    by row). *)
Record Canvas : Type := mkCanvas
  { width : nat; height : nat; shown : list byte }.

(** [ctx.createImageData(sw, sh)]: a zero-filled [Uint8ClampedArray] of
    [4*sw*sh] bytes; an [IndexSizeError] ([None]) when [sw] or [sh] is 0. *)
Definition createImageData (sw sh : nat) : option (list byte) :=
  if (sw =? 0) || (sh =? 0) then None
  else Some (replicate (4 * sw * sh) x00).

(** Reading [frame[j]] and storing it in a [Uint8ClampedArray]: an index
    past the end reads [undefined], which is stored as 0. *)
Definition rd (frame : list byte) (j : nat) : byte :=
  default x00 (frame !! j).

(** The body of the conversion loop at index [i]; a store past the end
    of a typed array does nothing, as [<[_:=_]>]. *)
Definition copyPixel (frame : list byte) (data : list byte) (i : nat)
  : list byte :=
  <[i + 3 := xff]>
    (<[i + 2 := rd frame (i + 2)]>
       (<[i + 1 := rd frame (i + 1)]>
          (<[i + 0 := rd frame (i + 0)]> data))).

(** The values [i] takes in [for(i=0; i<n; i+=4)], in order. *)
Definition loopIndices (n : nat) : list nat :=
  filter (fun i => i mod 4 = 0) (seq 0 n).

(** [for(i=0; i<imgData.data.length; i+=4){ ... }]; the length of a typed
    array is fixed, so the bound is that of the array on entry. *)
Definition convert (frame data : list byte) : list byte :=
  fold_left (copyPixel frame) (loopIndices (length data)) data.

(** [ctx.putImageData(imgData, 0, 0)] on a canvas of the image's size. *)
Definition putImageData (img : list byte) (c : Canvas) : Canvas :=
  mkCanvas (width c) (height c) img.

(** [frameChange]: [None] when [createImageData] throws, the canvas then
    keeping what it showed. *)
Definition frameChange (frame : list byte) (c : Canvas) : option Canvas :=
  match createImageData (width c) (height c) with
  | None => None
  | Some imgData => Some (putImageData (convert frame imgData) c)
  end.

(** The initial render inside [render]: the canvas takes the model's
    resolution and shows the model's frame. *)
Definition initialRender (resolution : nat * nat) (frame : list byte)
  : option Canvas :=
  let c := mkCanvas (fst resolution) (snd resolution) [] in
  match createImageData (width c) (height c) with
  | None => None
  | Some imgData => Some (putImageData (convert frame imgData) c)
  end.

(** The byte the loop body stores at index [j] of the image: the frame's
    byte in the three colour positions of a group of four, 255 in the
    fourth. *)
Definition stored (frame : list byte) (j : nat) : byte :=
  if j mod 4 =? 3 then xff else rd frame j.

(** Pixel [i] of an RGBA image. *)
Definition pixel (img : list byte) (i : nat) : option (byte * byte * byte * byte) :=
  match img !! (4 * i), img !! (4 * i + 1), img !! (4 * i + 2), img !! (4 * i + 3) with
  | Some r, Some g, Some b, Some a => Some (r, g, b, a)
  | _, _, _, _ => None
  end.

End Display.

(* ===================================================================== *)
(** * [render]: the state the view starts from *)
(* ===================================================================== *)

Module Widget.
Import VecMath Controller Display.

(** The attributes of the widget model the view reads. *)
Record Model : Type := mkModel
  { camp : Vec3; camf : Vec3; camu : Vec3;
    resolution : nat * nat; frame : list byte }.

(** [render], with [now] the value of [Date.now()]: the controller's
    variables and the canvas after the initial render. *)
Definition render (now : Z) (m : Model) : option (Ctl * Canvas) :=
  let cf := camf m in
  let cp := cartToSphr (vadd (camp m) (vscl cf (-1))) in
  let cu := camu m in
  match initialRender (resolution m) (frame m) with
  | None => None
  | Some canvas => Some (mkCtl cp cf cu (mkNDC 0 0) now, canvas)
  end.

End Widget.

(* ===================================================================== *)
(** * Listener registration: which handlers a DOM event reaches *)
(* ===================================================================== *)

Module Listeners.
Import VecMath Controller.

(** The two closures [render] attaches to ['mousemove']. *)
Inductive Handler : Type := HDrag | HMidDrag.

Global Instance Handler_eq_dec : EqDecision Handler.
Proof. solve_decision. Defined.

(** The events the canvas listens to, with the fields the listeners
    read; [button] is [e.button]. *)
Inductive DomEvent : Type :=
| MouseDown (button : Z) (rect : Rect) (e : MouseEvent)
| MouseUp (button : Z)
| MouseMove (rect : Rect) (e : MouseEvent)
| Wheel (e : WheelEvent).

(** [canvas.addEventListener('mousemove', h, false)]: a listener that is
    already registered is not registered again; new ones go last. *)
Definition addEventListener (h : Handler) (ls : list Handler) : list Handler :=
  if decide (h ∈ ls) then ls else ls ++ [h].

(** [canvas.removeEventListener('mousemove', h, false)]. *)
Definition removeEventListener (h : Handler) (ls : list Handler)
  : list Handler :=
  filter (fun h' => h' <> h) ls.

(** The handler invocation a ['mousemove'] listener stands for. *)
Definition invoke (rect : Rect) (e : MouseEvent) (h : Handler) : Call :=
  match h with
  | HDrag => CDrag rect e
  | HMidDrag => CMidDrag rect e
  end.

(** One DOM event: the ['mousemove'] listeners afterwards and the handler
    invocations it causes, in the order of registration. *)
Definition dispatch (ls : list Handler) (ev : DomEvent)
  : list Handler * list Call :=
  match ev with
  | MouseDown b rect e =>
      (if (b =? 0)%Z then addEventListener HDrag ls
       else if (b =? 1)%Z then addEventListener HMidDrag ls
       else ls,
       [CMouseDown rect e])
  | MouseUp b =>
      (if (b =? 0)%Z then removeEventListener HDrag ls
       else if (b =? 1)%Z then removeEventListener HMidDrag ls
       else ls,
       [])
  | MouseMove rect e => (ls, map (invoke rect e) ls)
  | Wheel e => (ls, [CScroll e])
  end.

(** A sequence of DOM events. *)
Fixpoint dispatchAll (ls : list Handler) (evs : list DomEvent)
  : list Handler * list Call :=
  match evs with
  | [] => (ls, [])
  | ev :: evs' =>
      let '(ls1, cs) := dispatch ls ev in
      let '(ls2, cs') := dispatchAll ls1 evs' in
      (ls2, cs ++ cs')
  end.

End Listeners.

(* ===================================================================== *)
(** * Notions used to state properties *)
(* ===================================================================== *)

Module Notions.
Import VecMath Controller.

(** The inner product of two vectors. *)
Definition dot (x y : Vec3) : R :=
  v0 x * v0 y + v1 x * v1 y + v2 x * v2 y.

(** The pointer positions of a sequence of [handleDrag] calls. *)
Definition drags (l : list (Rect * MouseEvent)) : list Call :=
  map (fun re => CDrag (fst re) (snd re)) l.

(** A bounding rectangle of nonzero width and height: the divisions of
    [getNDC] are by nonzero numbers. *)
Definition properRect (rect : Rect) : Prop :=
  rect_left rect <> rect_right rect /\ rect_top rect <> rect_bottom rect.

(** A handler invocation whose rectangle, if it has one, is proper. *)
Definition properCall (c : Call) : Prop :=
  match c with
  | CMouseDown rect _ | CDrag rect _ | CMidDrag rect _ => properRect rect
  | CScroll _ => True
  end.

(** The spherical offset is one the controller keeps: radius at least
    the minimum, elevation within the limit. *)
Definition validOffset (c : Vec3) : Prop :=
  rlim <= v0 c /\ - phiLim <= v2 c <= phiLim.

End Notions.

(* ===================================================================== *)
(** * Concrete inputs used in the examples below *)
(* ===================================================================== *)

Module Examples.
Import VecMath Controller Display.

(** A controller state with spherical offset [c], focal point at the
    origin, up vector (0,1,0), pointer at NDC (0,0) and last publication
    at time 0. *)
Definition ctlAt (c : Vec3) : Ctl :=
  mkCtl c (mkVec3 0 0 0) (mkVec3 0 1 0) (mkNDC 0 0) 0.

(** A 100 x 100 canvas at the top left corner of the viewport. *)
Definition rect100 : Rect := mkRect 0 100 0 100.

(** One wheel detent towards the user: [wheelDelta] 40. *)
Definition wheelIn : WheelEvent := mkWheelEvent (Some 40) None.

(** Two Orbit calls whose deltas cancel: elevation up by 2, then down
    by 2. *)
Definition upDown : list (R * R) := [(0, -2); (0, 2)].

(** Two Orbit calls whose deltas cancel and stay clear of the limits. *)
Definition thereAndBack : list (R * R) := [(3 / 10, 1); (- (3 / 10), -1)].

(** Four wheel detents at times 60, 80, 100 and 111 ms. *)
Definition burst : list (Z * Call) :=
  [(60, CScroll wheelIn); (80, CScroll wheelIn);
   (100, CScroll wheelIn); (111, CScroll wheelIn)]%Z.

(** A 1 x 1 canvas showing one grey pixel. *)
Definition greyPixel : Canvas := mkCanvas 1 1 [x09; x09; x09; xff].

(** A frame buffer of one pixel with alpha 4. *)
Definition rgbaFrame : list byte := [x01; x02; x03; x04].

(** A model whose camera sits 0.000005 in front of the focal point. *)
Definition nearModel : Widget.Model :=
  Widget.mkModel (mkVec3 0 0 (1 / 200000)) (mkVec3 0 0 0) (mkVec3 0 1 0)
                 (1%nat, 1%nat) rgbaFrame.

(** A frame buffer of three bytes. *)
Definition shortFrame : list byte := [x01; x02; x03].

(** A frame buffer of eight bytes. *)
Definition longFrame : list byte :=
  [x01; x02; x03; x04; x05; x06; x07; x08].

(** A drag to (70, 40) at 10 ms and back to the corner at 100 ms. *)
Definition dragOutAndBack : list (Z * Call) :=
  [(10%Z, CDrag rect100 (mkMouseEvent 70 40));
   (100%Z, CDrag rect100 (mkMouseEvent 0 0))].

(** Button 0 pressed twice without a release, then button 1. *)
Definition pressTwice : list Listeners.DomEvent :=
  [Listeners.MouseDown 0 rect100 (mkMouseEvent 0 0);
   Listeners.MouseDown 0 rect100 (mkMouseEvent 5 5);
   Listeners.MouseDown 1 rect100 (mkMouseEvent 5 5)].

(** The pointer crossing the canvas with no button held, a wheel detent
    on the way. *)
Definition hover : list Listeners.DomEvent :=
  [Listeners.MouseMove rect100 (mkMouseEvent 10 10);
   Listeners.Wheel wheelIn;
   Listeners.MouseMove rect100 (mkMouseEvent 20 20);
   Listeners.MouseUp 0].

(** The handler invocations of [hover], the wheel's at 70 ms. *)
Definition hoverCalls : list (Z * Call) := [(70%Z, CScroll wheelIn)].

(** One ['mousemove'] with both buttons held: [handleDrag] at 60 ms,
    [handleMidDrag] at 61 ms. *)
Definition bothHeld : list (Z * Call) :=
  [(60%Z, CDrag rect100 (mkMouseEvent 30 30));
   (61%Z, CMidDrag rect100 (mkMouseEvent 30 30))].

(** The frame of one pixel without its alpha byte. *)
Definition rgbFrame : list byte := [x01; x02; x03].

(** What [render] builds from [nearModel] at time 0. *)
Definition nearCtl : Ctl :=
  mkCtl (cartToSphr (vadd (mkVec3 0 0 (1 / 200000)) (vscl (mkVec3 0 0 0) (-1))))
        (mkVec3 0 0 0) (mkVec3 0 1 0) (mkNDC 0 0) 0.

Definition nearCanvas : Canvas := mkCanvas 1 1 [x01; x02; x03; xff].

End Examples.

(* ===================================================================== *)
(** * Properties of the vector utilities *)
(* ===================================================================== *)

Module VecFacts.
Import VecMath.

Lemma Vec3_eq (a b : Vec3) :
  v0 a = v0 b -> v1 a = v1 b -> v2 a = v2 b -> a = b.
Proof. destruct a, b; simpl; intros; subst; reflexivity. Qed.

Lemma sumsq_nonneg (x y z : R) : 0 <= x * x + y * y + z * z.
Proof. nra. Qed.

Lemma norm_sqr (x : Vec3) :
  norm x * norm x = v0 x * v0 x + v1 x * v1 x + v2 x * v2 x.
Proof. unfold norm. apply sqrt_sqrt, sumsq_nonneg. Qed.

Lemma norm_nonneg (x : Vec3) : 0 <= norm x.
Proof. unfold norm. apply sqrt_pos. Qed.

Lemma norm_pos (x : Vec3) : x <> mkVec3 0 0 0 -> 0 < norm x.
Proof.
  intros Hx. destruct (norm_nonneg x) as [H | H]; [exact H | exfalso].
  apply Hx. pose proof (norm_sqr x) as Hs. rewrite <- H in Hs.
  destruct x as [a b c]; simpl in *.
  assert (a = 0) by nra. assert (b = 0) by nra. assert (c = 0) by nra.
  subst; reflexivity.
Qed.

(** The horizontal radius in terms of the tangent of the azimuth. *)
Lemma hypot_factor (x z : R) :
  z <> 0 -> sqrt (x * x + z * z) = Rabs z * sqrt (1 + (x / z)²).
Proof.
  intros Hz.
  replace (x * x + z * z) with (z² * (1 + (x / z)²)) by (unfold Rsqr; field; exact Hz).
  rewrite sqrt_mult_alt by apply Rle_0_sqr.
  rewrite sqrt_Rsqr_abs. reflexivity.
Qed.

Lemma sqrt_1_plus_sqr_pos (t : R) : 0 < sqrt (1 + t²).
Proof. apply sqrt_lt_R0. pose proof (Rle_0_sqr t). lra. Qed.

(** [atan2] inverts the polar decomposition of the (z, x) plane. *)
Lemma atan2_polar (x z : R) :
  sqrt (x * x + z * z) * sin (atan2 x z) = x /\
  sqrt (x * x + z * z) * cos (atan2 x z) = z.
Proof.
  unfold atan2.
  destruct (Rlt_dec 0 z) as [Hz | Hz].
  - rewrite hypot_factor by lra. rewrite Rabs_right by lra.
    rewrite sin_atan, cos_atan.
    pose proof (sqrt_1_plus_sqr_pos (x / z)).
    split; field; lra.
  - destruct (Rlt_dec z 0) as [Hz' | Hz'].
    + rewrite hypot_factor by lra. rewrite Rabs_left by lra.
      pose proof (sqrt_1_plus_sqr_pos (x / z)).
      destruct (Rle_dec 0 x).
      * rewrite neg_sin, neg_cos, sin_atan, cos_atan.
        split; field; lra.
      * rewrite sin_minus, cos_minus, sin_PI, cos_PI, sin_atan, cos_atan.
        split; field; lra.
    + assert (z = 0) by lra. subst z.
      replace (x * x + 0 * 0) with (x²) by (unfold Rsqr; ring).
      rewrite sqrt_Rsqr_abs.
      destruct (Rlt_dec 0 x).
      * rewrite sin_PI2, cos_PI2, Rabs_right by lra. lra.
      * destruct (Rlt_dec x 0).
        -- rewrite sin_neg, cos_neg, sin_PI2, cos_PI2, Rabs_left by lra. lra.
        -- assert (x = 0) by lra. subst x. rewrite Rabs_R0. lra.
Qed.

(** The sine argument handed to [Math.asin] is in its domain. *)
Lemma ratio_bound (x : Vec3) :
  0 < norm x -> -1 <= v1 x / norm x <= 1.
Proof.
  intros Hr. pose proof (norm_sqr x) as Hs.
  assert (Hy : - norm x <= v1 x <= norm x) by (split; nra).
  split.
  - apply Rmult_le_reg_r with (norm x); [exact Hr |].
    unfold Rdiv. rewrite Rmult_assoc, Rinv_l by lra. lra.
  - apply Rmult_le_reg_r with (norm x); [exact Hr |].
    unfold Rdiv. rewrite Rmult_assoc, Rinv_l by lra. lra.
Qed.

(** Radius times the cosine of the elevation is the horizontal radius. *)
Lemma radius_cos_elevation (x : Vec3) :
  0 < norm x ->
  norm x * cos (asin (v1 x / norm x)) = sqrt (v0 x * v0 x + v2 x * v2 x).
Proof.
  intros Hr. rewrite cos_asin by (apply ratio_bound; exact Hr).
  rewrite <- (sqrt_Rsqr (norm x)) at 1 by lra.
  rewrite <- sqrt_mult_alt by apply Rle_0_sqr.
  f_equal. unfold Rsqr. pose proof (norm_sqr x) as Hs.
  field_simplify; [| lra]. nra.
Qed.

(** C3 -- spherical round-trip law.  For every nonzero vector [v],
    converting to the spherical offset [norm v, atan2(v.x, v.z),
    asin(v.y / norm v)] and back with [r sin az cos el, r sin el,
    r cos az cos el] gives [v] again, exactly over the reals. *)
Theorem sphrToCart_cartToSphr (v : Vec3) :
  v <> mkVec3 0 0 0 -> sphrToCart (cartToSphr v) = v.
Proof.
  intros Hv. pose proof (norm_pos v Hv) as Hr.
  pose proof (radius_cos_elevation v Hr) as Hc.
  destruct (atan2_polar (v0 v) (v2 v)) as [Hs Hz].
  apply Vec3_eq; unfold sphrToCart, cartToSphr; cbn [v0 v1 v2].
  - rewrite (Rmult_comm (norm v)), Rmult_assoc, Hc, Rmult_comm. exact Hs.
  - rewrite sin_asin by (apply ratio_bound; exact Hr). field. lra.
  - rewrite (Rmult_comm (norm v)), Rmult_assoc, Hc, Rmult_comm. exact Hz.
Qed.

Lemma sphrToCart_cartToSphr_witness :
  mkVec3 1 2 3 <> mkVec3 0 0 0 /\
  sphrToCart (cartToSphr (mkVec3 1 2 3)) = mkVec3 1 2 3.
Proof.
  assert (H : mkVec3 1 2 3 <> mkVec3 0 0 0).
  { intros E. apply (f_equal v0) in E. simpl in E. lra. }
  split; [exact H | apply (sphrToCart_cartToSphr (mkVec3 1 2 3)); exact H].
Defined.

End VecFacts.

(* ===================================================================== *)
(** * Properties of the camera operations *)
(* ===================================================================== *)

Module CameraFacts.
Import VecMath Controller.

Lemma clamp_range (a : R) :
  - phiLim <= Rmax (- phiLim) (Rmin phiLim a) <= phiLim.
Proof.
  unfold phiLim. split.
  - apply Rmax_l.
  - apply Rmax_lub; [lra | apply Rmin_l].
Qed.

Lemma clamp_id (a : R) :
  - phiLim <= a <= phiLim -> Rmax (- phiLim) (Rmin phiLim a) = a.
Proof.
  intros [Hl Hu]. rewrite Rmin_right by exact Hu. apply Rmax_right; exact Hl.
Qed.

Lemma clamp_above (a : R) :
  phiLim <= a -> Rmax (- phiLim) (Rmin phiLim a) = phiLim.
Proof.
  intros H. rewrite Rmin_left by exact H. apply Rmax_right. unfold phiLim. lra.
Qed.

Lemma clamp_below (a : R) :
  a <= - phiLim -> Rmax (- phiLim) (Rmin phiLim a) = - phiLim.
Proof.
  intros H. rewrite Rmin_right by (unfold phiLim in *; lra).
  apply Rmax_left; exact H.
Qed.

(** What [handleDrag] leaves in [cp]: the Orbit update for five times
    the pointer's NDC delta. *)
Lemma handleDrag_cp (rect : Rect) (e : MouseEvent) (mt : Z) (s : Ctl) :
  cp (fst (handleDrag rect e mt s)) =
  orbit (5 * ndc_x (fst (getMouseDelta rect e s)))
        (5 * ndc_y (fst (getMouseDelta rect e s))) (cp s).
Proof.
  unfold handleDrag, getMouseDelta, updateCam; cbn -[orbit Z.ltb].
  destruct (_ <? _)%Z; reflexivity.
Qed.

Lemma handleDrag_cf (rect : Rect) (e : MouseEvent) (mt : Z) (s : Ctl) :
  cf (fst (handleDrag rect e mt s)) = cf s /\
  cu (fst (handleDrag rect e mt s)) = cu s.
Proof.
  unfold handleDrag, getMouseDelta, updateCam; cbn -[orbit Z.ltb].
  destruct (_ <? _)%Z; split; reflexivity.
Qed.

(** What [handleScroll] leaves in [cp]: the Dolly update when the
    normalized delta is nonzero, nothing otherwise. *)
Lemma handleScroll_cp (e : WheelEvent) (mt : Z) (s : Ctl) :
  cp (fst (handleScroll e mt s)) =
  if Req_dec_T (wheelNorm e) 0 then cp s else dolly (wheelNorm e) (cp s).
Proof.
  unfold handleScroll, updateCam; cbn -[dolly Z.ltb].
  destruct (Req_dec_T _ _); [reflexivity |].
  destruct (_ <? _)%Z; reflexivity.
Qed.

Lemma handleScroll_cf (e : WheelEvent) (mt : Z) (s : Ctl) :
  cf (fst (handleScroll e mt s)) = cf s /\
  cu (fst (handleScroll e mt s)) = cu s.
Proof.
  unfold handleScroll, updateCam; cbn -[dolly Z.ltb].
  destruct (Req_dec_T _ _); [split; reflexivity |].
  destruct (_ <? _)%Z; split; reflexivity.
Qed.

(** Decide the order tests left by [Rmax], [Rmin] and the truthiness
    tests on concrete numbers. *)
Ltac Rcases :=
  repeat match goal with
    | |- context [Req_dec_T ?a ?b] => destruct (Req_dec_T a b); try lra
    | |- context [Rle_dec ?a ?b] => destruct (Rle_dec a b); try lra
    end.

Lemma wheelNorm_wheelIn : wheelNorm Examples.wheelIn = 1.
Proof.
  unfold wheelNorm, Examples.wheelIn, truthy, wheelScl; simpl.
  destruct (Req_dec_T 40 0); lra.
Qed.

(** C4, as stated, fails below the minimum radius: from radius 0.000005
    a zoom-in step of normalized delta 1 raises the radius to 0.00001,
    although the prior radius was positive and not at the minimum. *)
Lemma dolly_grows_below_rlim :
  0 < v0 (cp (Examples.ctlAt (mkVec3 (1 / 200000) 0 0))) /\
  0 < wheelNorm Examples.wheelIn /\
  ~ (v0 (cp (fst (handleScroll Examples.wheelIn 100
                    (Examples.ctlAt (mkVec3 (1 / 200000) 0 0)))))
       < v0 (cp (Examples.ctlAt (mkVec3 (1 / 200000) 0 0)))
     \/ v0 (cp (Examples.ctlAt (mkVec3 (1 / 200000) 0 0))) = 1 / 100000).
Proof.
  rewrite handleScroll_cp, wheelNorm_wheelIn.
  destruct (Req_dec_T 1 0) as [E | _]; [lra |].
  unfold dolly, Examples.ctlAt, rlim, dScl, Rmax; simpl.
  Rcases; repeat split; try lra; intros [H | H]; lra.
Qed.

(** C4, amended -- Dolly update.  For every prior radius r at or above
    minRadius = 0.00001 and every normalized wheel delta d, the radius
    after [handleScroll] is max(minRadius, r (1 - 0.05 d)); for d > 0 it
    is strictly less than r unless r is at minRadius, where it stays; and
    d = 1 on r = 100 gives 95. *)
Theorem handleScroll_radius (e : WheelEvent) (mt : Z) (s : Ctl) :
  1 / 100000 <= v0 (cp s) ->
  v0 (cp (fst (handleScroll e mt s)))
    = Rmax (1 / 100000) (v0 (cp s) * (1 - 5 / 100 * wheelNorm e)) /\
  (0 < wheelNorm e ->
     (v0 (cp s) <> 1 / 100000 ->
        v0 (cp (fst (handleScroll e mt s))) < v0 (cp s)) /\
     (v0 (cp s) = 1 / 100000 ->
        v0 (cp (fst (handleScroll e mt s))) = 1 / 100000)) /\
  (wheelNorm e = 1 -> v0 (cp s) = 100 ->
     v0 (cp (fst (handleScroll e mt s))) = 95).
Proof.
  intros Hr. rewrite handleScroll_cp.
  destruct (Req_dec_T (wheelNorm e) 0) as [E | E].
  - rewrite E. split; [rewrite Rmax_right; lra |].
    split; [intros Hd; lra | intros Hd; lra].
  - unfold dolly, rlim, dScl; cbn [v0].
    split; [reflexivity |]. split.
    + intros Hd. split.
      * intros Hne. unfold Rmax. destruct (Rle_dec _ _); nra.
      * intros Heq. rewrite Heq. apply Rmax_left. nra.
    + intros Hd Heq. rewrite Hd, Heq. rewrite Rmax_right; lra.
Qed.

Lemma handleScroll_radius_witness :
  v0 (cp (fst (handleScroll Examples.wheelIn 100
                 (Examples.ctlAt (mkVec3 100 0 0))))) = 95.
Proof.
  refine (proj2 (proj2 (handleScroll_radius Examples.wheelIn 100
                          (Examples.ctlAt (mkVec3 100 0 0)) _))
            wheelNorm_wheelIn eq_refl).
  simpl. lra.
Defined.

(** C5 -- elevation clamp.  After every Orbit update, and so after every
    [handleDrag], the elevation lies in [-1.5175, 1.5175]; at the upper
    (lower) limit a delta that pushes further out leaves the elevation at
    that limit. *)
Theorem orbit_elevation_clamped :
  (forall (dAz dEl : R) (c : Vec3),
      - (15175 / 10000) <= v2 (orbit dAz dEl c) <= 15175 / 10000) /\
  (forall (rect : Rect) (e : MouseEvent) (mt : Z) (s : Ctl),
      - (15175 / 10000) <= v2 (cp (fst (handleDrag rect e mt s)))
        <= 15175 / 10000) /\
  (forall (dAz dEl : R) (c : Vec3),
      v2 c = 15175 / 10000 -> dEl <= 0 ->
      v2 (orbit dAz dEl c) = 15175 / 10000) /\
  (forall (dAz dEl : R) (c : Vec3),
      v2 c = - (15175 / 10000) -> 0 <= dEl ->
      v2 (orbit dAz dEl c) = - (15175 / 10000)).
Proof.
  change (15175 / 10000) with phiLim.
  split; [| split; [| split]].
  - intros. apply clamp_range.
  - intros. rewrite handleDrag_cp. apply clamp_range.
  - intros dAz dEl c Hc Hd. cbn [orbit v2]. apply clamp_above. lra.
  - intros dAz dEl c Hc Hd. cbn [orbit v2]. apply clamp_below. lra.
Qed.

Lemma orbit_elevation_clamped_witness :
  v2 (orbit 0 (-1) (mkVec3 1 0 (15175 / 10000))) = 15175 / 10000.
Proof.
  apply (proj1 (proj2 (proj2 orbit_elevation_clamped))); simpl; lra.
Defined.

(** A point inside a proper bounding rectangle: x is in [0,1] and y in
    [-1,0]; the top edge is at y = 0 and the bottom edge at y = -1. *)
Lemma getNDC_range (rect : Rect) (e : MouseEvent) :
  rect_left rect < rect_right rect -> rect_top rect < rect_bottom rect ->
  rect_left rect <= clientX e <= rect_right rect ->
  rect_top rect <= clientY e <= rect_bottom rect ->
  0 <= ndc_x (getNDC rect e) <= 1 /\ -1 <= ndc_y (getNDC rect e) <= 0 /\
  (clientX e = rect_left rect -> ndc_x (getNDC rect e) = 0) /\
  (clientX e = rect_right rect -> ndc_x (getNDC rect e) = 1) /\
  (clientY e = rect_top rect -> ndc_y (getNDC rect e) = 0) /\
  (clientY e = rect_bottom rect -> ndc_y (getNDC rect e) = -1).
Proof.
  intros Hw Hh [Hx1 Hx2] [Hy1 Hy2]. unfold getNDC; cbn [ndc_x ndc_y].
  set (w := rect_right rect - rect_left rect).
  set (h := rect_top rect - rect_bottom rect).
  assert (Hwp : 0 < / w) by (apply Rinv_0_lt_compat; unfold w; lra).
  assert (Hhp : / h < 0) by (apply Rinv_lt_0_compat; unfold h; lra).
  assert (Hw1 : w * / w = 1) by (apply Rinv_r; unfold w; lra).
  assert (Hh1 : h * / h = 1) by (apply Rinv_r; unfold h; lra).
  unfold Rdiv.
  repeat apply conj; try (intros ->); unfold w, h in *; nra.
Qed.

(** C8 at a failing input.  On a 100 x 100 canvas at the origin the
    pointer on the top edge gets y = 0, on the bottom edge y = -1 and in
    the middle y = -1/2 (x = 1/2 throughout): y ranges over [-1,0], not
    over [0,1] with the top at 1. *)
Theorem getNDC_y_not_in_unit_interval :
  getNDC Examples.rect100 (mkMouseEvent 50 0) = mkNDC (1 / 2) 0 /\
  getNDC Examples.rect100 (mkMouseEvent 50 100) = mkNDC (1 / 2) (-1) /\
  getNDC Examples.rect100 (mkMouseEvent 50 50) = mkNDC (1 / 2) (- (1 / 2)).
Proof.
  unfold getNDC, Examples.rect100; cbn [clientX clientY rect_left rect_right
                                         rect_top rect_bottom].
  repeat apply conj; f_equal; lra.
Qed.

Lemma orbits_cons (d : R * R) (ds : list (R * R)) (c : Vec3) :
  orbits (d :: ds) c = orbits ds (orbit (fst d) (snd d) c).
Proof. reflexivity. Qed.

(** While the clamp does not engage, a sequence of Orbit calls subtracts
    the summed deltas. *)
Lemma orbits_unclamped (ds : list (R * R)) :
  forall c : Vec3,
    (forall n : nat, - phiLim <= v2 c - sumEl (take n ds) <= phiLim) ->
    orbits ds c = mkVec3 (v0 c) (v1 c - sumAz ds) (v2 c - sumEl ds).
Proof.
  induction ds as [| d ds IH]; intros c Hin.
  - destruct c; cbn. f_equal; lra.
  - rewrite orbits_cons.
    assert (Hstep : orbit (fst d) (snd d) c
                    = mkVec3 (v0 c) (v1 c - fst d) (v2 c - snd d)).
    { unfold orbit. f_equal. apply clamp_id.
      specialize (Hin 1%nat). cbn in Hin. rewrite take_0 in Hin. cbn in Hin. lra. }
    rewrite Hstep, IH.
    + cbn. f_equal; lra.
    + intros n. specialize (Hin (S n)). cbn in Hin |- *. lra.
Qed.

(** C9, as stated, fails when the clamp engages: from elevation 0 and
    radius 1, raising the elevation by 2 and lowering it by 2 (net zero)
    ends at elevation -0.4825. *)
Lemma orbits_net_zero_clamped :
  - (15175 / 10000) < v2 (mkVec3 1 0 0) < 15175 / 10000 /\
  1 / 100000 < v0 (mkVec3 1 0 0) /\
  sumAz Examples.upDown = 0 /\ sumEl Examples.upDown = 0 /\
  v2 (orbits Examples.upDown (mkVec3 1 0 0)) = - (4825 / 10000) /\
  orbits Examples.upDown (mkVec3 1 0 0) <> mkVec3 1 0 0.
Proof.
  assert (E : orbits Examples.upDown (mkVec3 1 0 0)
              = mkVec3 1 0 (- (4825 / 10000))).
  { unfold orbits, Examples.upDown, orbit; cbn.
    rewrite (clamp_above (0 - -2)) by (unfold phiLim; lra).
    rewrite clamp_id by (unfold phiLim; lra).
    unfold phiLim. f_equal; lra. }
  rewrite E. cbn. repeat apply conj; try lra.
  intros H. apply (f_equal v2) in H. cbn in H. lra.
Qed.

Lemma handleDrag_m0 (rect : Rect) (e : MouseEvent) (mt : Z) (s : Ctl) :
  m0 (fst (handleDrag rect e mt s)) = getNDC rect e.
Proof.
  unfold handleDrag, getMouseDelta, updateCam; cbn -[orbit Z.ltb getNDC].
  destruct (_ <? _)%Z; reflexivity.
Qed.

(** The same through the handlers: dragging the pointer 40 pixels down a
    100 x 100 canvas and back to where it started leaves the elevation at
    -0.4825 instead of 0. *)
Lemma drag_down_and_back :
  cp (fst (handleDrag Examples.rect100 (mkMouseEvent 0 0) 20
             (fst (handleDrag Examples.rect100 (mkMouseEvent 0 40) 10
                     (Examples.ctlAt (mkVec3 1 0 0))))))
  = mkVec3 1 0 (- (4825 / 10000)).
Proof.
  rewrite handleDrag_cp. unfold getMouseDelta; cbn [fst].
  rewrite handleDrag_m0, handleDrag_cp.
  unfold getMouseDelta, getNDC, Examples.rect100, Examples.ctlAt, orbit;
    cbn [fst ndc_x ndc_y clientX clientY rect_left rect_right rect_top
         rect_bottom m0 cp v0 v1 v2].
  rewrite (clamp_above (0 - _)) by (unfold phiLim; lra).
  rewrite clamp_id by (unfold phiLim; lra).
  unfold phiLim. f_equal; lra.
Qed.

(** C9, amended -- Orbit net-zero round trip.  For every offset and
    every finite sequence of Orbit calls whose azimuth deltas and
    elevation deltas each sum to zero, if the elevation stays within
    [-1.5175, 1.5175] after every prefix of the sequence without help of
    the clamp, the offset (radius, azimuth, elevation) is unchanged
    within tolerance: exactly so over the reals, which is what is proved
    here, rounding being outside the number model. *)
Theorem orbits_net_zero (ds : list (R * R)) (c : Vec3) :
  (forall n : nat,
      - (15175 / 10000) <= v2 c - sumEl (take n ds) <= 15175 / 10000) ->
  sumAz ds = 0 -> sumEl ds = 0 ->
  orbits ds c = c.
Proof.
  intros Hin Haz Hel. rewrite orbits_unclamped by exact Hin.
  rewrite Haz, Hel. destruct c; cbn. f_equal; lra.
Qed.

Lemma orbits_net_zero_witness :
  orbits Examples.thereAndBack (mkVec3 1 0 0) = mkVec3 1 0 0.
Proof.
  apply (orbits_net_zero Examples.thereAndBack (mkVec3 1 0 0)).
  - intros [| [| n]]; cbn; rewrite ?take_0, ?take_nil; cbn; lra.
  - cbn; lra.
  - cbn; lra.
Defined.

(** C10 -- frame effects of orbit and dolly.  An Orbit update, and
    [handleDrag] as a whole, leaves the radius, the focal point and the up
    vector as they were; a Dolly update, and [handleScroll] as a whole,
    leaves azimuth, elevation, focal point and up vector as they were. *)
Theorem orbit_dolly_frame :
  (forall (dAz dEl : R) (c : Vec3), v0 (orbit dAz dEl c) = v0 c) /\
  (forall (rect : Rect) (e : MouseEvent) (mt : Z) (s : Ctl),
      v0 (cp (fst (handleDrag rect e mt s))) = v0 (cp s) /\
      cf (fst (handleDrag rect e mt s)) = cf s /\
      cu (fst (handleDrag rect e mt s)) = cu s) /\
  (forall (d : R) (c : Vec3),
      v1 (dolly d c) = v1 c /\ v2 (dolly d c) = v2 c) /\
  (forall (e : WheelEvent) (mt : Z) (s : Ctl),
      v1 (cp (fst (handleScroll e mt s))) = v1 (cp s) /\
      v2 (cp (fst (handleScroll e mt s))) = v2 (cp s) /\
      cf (fst (handleScroll e mt s)) = cf s /\
      cu (fst (handleScroll e mt s)) = cu s).
Proof.
  split; [reflexivity |]. split; [| split; [split; reflexivity |]].
  - intros. rewrite handleDrag_cp. split; [reflexivity | apply handleDrag_cf].
  - intros. rewrite handleScroll_cp.
    destruct (Req_dec_T _ _); (split; [reflexivity |]);
      (split; [reflexivity | apply handleScroll_cf]).
Qed.

End CameraFacts.

(* ===================================================================== *)
(** * Properties of the publication throttle *)
(* ===================================================================== *)

Module ThrottleFacts.
Import VecMath Controller.

Lemma updateCam_spec (mt : Z) (s : Ctl) :
  updateCam mt s =
  if (throttlems <? mt - lastMouseT s)%Z
  then (set_lastMouseT mt s, publication s) else (s, []).
Proof. reflexivity. Qed.

Lemma applyLocal_lastMouseT (s : Ctl) (c : Call) :
  lastMouseT (applyLocal s c) = lastMouseT s.
Proof.
  destruct c; cbn; try reflexivity.
  destruct (Req_dec_T _ _); reflexivity.
Qed.

Lemma applyLocal_set_lastMouseT (T : Z) (s : Ctl) (c : Call) :
  applyLocal (set_lastMouseT T s) c = set_lastMouseT T (applyLocal s c).
Proof.
  destruct c; cbn; try reflexivity.
  destruct (Req_dec_T _ _); reflexivity.
Qed.

Lemma locals_set_lastMouseT (T : Z) (l : list Call) :
  forall s : Ctl,
    locals l (set_lastMouseT T s) = set_lastMouseT T (locals l s).
Proof.
  induction l as [| c l IH]; intros s; [reflexivity |].
  unfold locals in *; cbn [fold_left].
  rewrite applyLocal_set_lastMouseT. apply IH.
Qed.

Lemma set_lastMouseT_same (s : Ctl) : set_lastMouseT (lastMouseT s) s = s.
Proof. destruct s; reflexivity. Qed.

(** Every handler is its local update followed, for the handlers that
    reach [updateCam], by the throttle test. *)
Lemma step_spec (s : Ctl) (t : Z) (c : Call) :
  step s (t, c) =
  if attempts c && (throttlems <? t - lastMouseT s)%Z
  then (set_lastMouseT t (applyLocal s c), publication (applyLocal s c))
  else (applyLocal s c, []).
Proof.
  destruct c as [rect e | rect e | rect e | e];
    cbn [step snd fst attempts andb].
  - reflexivity.
  - exact (updateCam_spec t (applyLocal s (CDrag rect e))).
  - exact (updateCam_spec t (applyLocal s (CMidDrag rect e))).
  - unfold handleScroll, applyLocal.
    destruct (Req_dec_T _ _); [reflexivity | apply updateCam_spec].
Qed.

Lemma run_cons (s : Ctl) (tc : Z * Call) (l : list (Z * Call)) :
  run s (tc :: l) =
  (fst (run (fst (step s tc)) l),
   (fst tc, snd (step s tc)) :: snd (run (fst (step s tc)) l)).
Proof.
  cbn [run]. destruct (step s tc) as [s1 eff]. cbn [fst snd].
  destruct (run s1 l) as [s2 tr]. reflexivity.
Qed.

Lemma publication_nonempty (s : Ctl) : publication s <> [].
Proof. discriminate. Qed.

Lemma pubTimes_cons (t : Z) (eff : list Effect) (tr : list (Z * list Effect)) :
  pubTimes ((t, eff) :: tr) =
  if publishes eff then t :: pubTimes tr else pubTimes tr.
Proof.
  unfold pubTimes. rewrite filter_cons. cbn [snd].
  destruct (publishes eff); cbn; reflexivity.
Qed.

Lemma inWindow_cons_in (a w t : Z) (ts : list Z) :
  (a <= t < a + w)%Z -> inWindow a w (t :: ts) = t :: inWindow a w ts.
Proof. intros H. unfold inWindow. apply filter_cons_True. exact H. Qed.

Lemma inWindow_cons_out (a w t : Z) (ts : list Z) :
  ~ (a <= t < a + w)%Z -> inWindow a w (t :: ts) = inWindow a w ts.
Proof. intros H. unfold inWindow. apply filter_cons_False. exact H. Qed.

(** The state a run ends in: all local updates, and some publication
    time. *)
Lemma run_locals (l : list (Z * Call)) :
  forall s : Ctl,
    exists T : Z, fst (run s l) = set_lastMouseT T (locals (map snd l) s).
Proof.
  induction l as [| [t c] l IH]; intros s.
  - exists (lastMouseT s). cbn. symmetry. apply set_lastMouseT_same.
  - rewrite run_cons. cbn [fst snd map]. rewrite step_spec.
    destruct (attempts c && _); cbn [fst].
    + destruct (IH (set_lastMouseT t (applyLocal s c))) as [T HT].
      exists T. rewrite HT, locals_set_lastMouseT. reflexivity.
    + apply IH.
Qed.

(** Every publication in a trace comes more than the interval after the
    one before. *)
Lemma run_spaced (l : list (Z * Call)) :
  forall s : Ctl, spaced (lastMouseT s) (pubTimes (snd (run s l))).
Proof.
  induction l as [| [t c] l IH]; intros s; [exact I |].
  rewrite run_cons. cbn [fst snd]. rewrite pubTimes_cons, step_spec.
  destruct (attempts c && (throttlems <? t - lastMouseT s)%Z) eqn:E;
    cbn [fst snd publishes publication].
  - apply andb_true_iff in E as [_ E]. apply Z.ltb_lt in E.
    split; [exact E | apply (IH (set_lastMouseT t (applyLocal s c)))].
  - rewrite <- (applyLocal_lastMouseT s c). apply IH.
Qed.

Lemma spaced_later (ts : list Z) :
  forall last : Z, spaced last ts -> Forall (fun t => (last + throttlems < t)%Z) ts.
Proof.
  induction ts as [| t ts IH]; intros last H; [constructor |].
  destruct H as [Ht Hs]. constructor; [lia |].
  eapply Forall_impl; [exact (IH t Hs) |]. cbn beta. intros x Hx.
  change throttlems with 50%Z in *. lia.
Qed.

Lemma inWindow_none (a w : Z) (ts : list Z) :
  Forall (fun t => (a + w <= t)%Z) ts -> inWindow a w ts = [].
Proof.
  induction 1 as [| t ts Ht _ IH]; [reflexivity |].
  rewrite inWindow_cons_out by lia. exact IH.
Qed.

Lemma spaced_window (a w : Z) (ts : list Z) :
  (w <= throttlems)%Z ->
  forall last : Z, spaced last ts -> (length (inWindow a w ts) <= 1)%nat.
Proof.
  intros Hw. induction ts as [| t ts IH]; intros last H; [cbn; lia |].
  destruct H as [Ht Hs].
  destruct (decide (a <= t < a + w)%Z) as [Hin | Hout];
    [rewrite inWindow_cons_in by exact Hin
    | rewrite inWindow_cons_out by exact Hout; exact (IH t Hs)].
  rewrite inWindow_none; [cbn; lia |].
  eapply Forall_impl; [exact (spaced_later ts t Hs) |]. cbn beta.
  intros x Hx. lia.
Qed.

(** The effects of the [k]-th handler of a run are those of a
    publication of the state after all local updates so far. *)
Lemma run_entry (l : list (Z * Call)) :
  forall (s : Ctl) (k : nat) (t : Z) (eff : list Effect),
    snd (run s l) !! k = Some (t, eff) -> eff <> [] ->
    eff = publication (locals (map snd (take (S k) l)) s).
Proof.
  induction l as [| [t0 c] l IH]; intros s k t eff Hk Hne; [discriminate |].
  rewrite run_cons in Hk. cbn [fst snd] in Hk. rewrite step_spec in Hk.
  destruct k as [| k].
  - cbn in Hk. injection Hk as _ Heff. cbn [take map snd]. rewrite take_0.
    cbn [map locals fold_left].
    destruct (attempts c && _); cbn [snd] in Heff; congruence.
  - cbn [lookup list_lookup] in Hk. cbn [take map snd].
    destruct (attempts c && _); cbn [fst] in Hk.
    + rewrite (IH _ _ _ _ Hk Hne), locals_set_lastMouseT. reflexivity.
    + exact (IH _ _ _ _ Hk Hne).
Qed.

Lemma run_take (l : list (Z * Call)) :
  forall (s : Ctl) (n : nat),
    snd (run s (take n l)) = take n (snd (run s l)).
Proof.
  induction l as [| tc l IH]; intros s n.
  - rewrite take_nil. cbn. rewrite take_nil. reflexivity.
  - destruct n as [| n]; [reflexivity |].
    cbn [take]. rewrite !run_cons. cbn [fst snd take]. rewrite IH. reflexivity.
Qed.

Lemma attempts_wheelIn : attempts (CScroll Examples.wheelIn) = true.
Proof.
  cbn [attempts]. rewrite CameraFacts.wheelNorm_wheelIn.
  destruct (Req_dec_T 1 0); [lra | reflexivity].
Qed.

(** Unfold the first wheel handler of a run on concrete times. *)
Ltac run_wheel_step :=
  rewrite run_cons, step_spec, attempts_wheelIn;
  cbn [fst snd andb]; rewrite ?applyLocal_lastMouseT;
  cbn [lastMouseT set_lastMouseT Examples.ctlAt];
  match goal with
  | |- context [(throttlems <? ?a - ?b)%Z] =>
      let v := eval vm_compute in (throttlems <? a - b)%Z in
      change (throttlems <? a - b)%Z with v
  end;
  cbn iota; rewrite pubTimes_cons; cbn [publishes publication fst snd].

(** The burst publishes at 60 ms and next at 111 ms only. *)
Lemma burst_pubTimes :
  pubTimes (snd (run (Examples.ctlAt (mkVec3 100 0 0)) Examples.burst))
  = [60; 111]%Z.
Proof.
  unfold Examples.burst. do 4 run_wheel_step. reflexivity.
Qed.

(** C1 -- throttling of camera publications.  A call of [updateCam]
    publishes (model.set, save_changes, send) exactly when more than 50 ms
    have passed since the last publication, and then publishes the current
    position and focal point; a handler run within the interval keeps its
    change of the shared camera variables and sends nothing; in any run,
    a window no longer than the interval holds at most one publication;
    and whatever the [k]-th handler of a run publishes is the camera
    state with the local updates of all handlers up to it applied. *)
Theorem throttle_policy :
  (forall (mt : Z) (s : Ctl),
      snd (updateCam mt s) <> [] <-> (50 < mt - lastMouseT s)%Z) /\
  (forall (mt : Z) (s : Ctl),
      (50 < mt - lastMouseT s)%Z ->
      updateCam mt s =
      (set_lastMouseT mt s,
       [ModelSet (vadd (sphrToCart (cp s)) (cf s)) (cf s);
        SaveChanges; Send "updateCam" ""])) /\
  (forall (s : Ctl) (t : Z) (c : Call),
      (t - lastMouseT s <= 50)%Z -> step s (t, c) = (applyLocal s c, [])) /\
  (forall (s : Ctl) (l : list (Z * Call)) (a w : Z),
      (w <= 50)%Z ->
      (length (inWindow a w (pubTimes (snd (run s l)))) <= 1)%nat) /\
  (forall (s : Ctl) (l : list (Z * Call)) (k : nat) (t : Z) (eff : list Effect),
      snd (run s l) !! k = Some (t, eff) -> eff <> [] ->
      let sk := locals (map snd (take (S k) l)) s in
      eff = [ModelSet (vadd (sphrToCart (cp sk)) (cf sk)) (cf sk);
             SaveChanges; Send "updateCam" ""]).
Proof.
  change 50%Z with throttlems.
  split; [| split; [| split; [| split]]].
  - intros mt s. rewrite updateCam_spec.
    destruct (Z.ltb_spec throttlems (mt - lastMouseT s)); cbn [snd]; split;
      intros H'; try lia; try discriminate; congruence.
  - intros mt s H. rewrite updateCam_spec.
    apply Z.ltb_lt in H. rewrite H. reflexivity.
  - intros s t c H. rewrite step_spec.
    apply Z.ltb_ge in H. rewrite H, andb_false_r. reflexivity.
  - intros s l a w Hw.
    apply (spaced_window a w _ Hw (lastMouseT s)), run_spaced.
  - intros s l k t eff Hk Hne. exact (run_entry l s k t eff Hk Hne).
Qed.

Lemma throttle_policy_witness :
  (length (inWindow 60 50
             (pubTimes (snd (run (Examples.ctlAt (mkVec3 100 0 0))
                               Examples.burst)))) <= 1)%nat.
Proof.
  apply (proj1 (proj2 (proj2 (proj2 throttle_policy)))). lia.
Defined.




End ThrottleFacts.

(* ===================================================================== *)
(** * Properties of the frame conversion *)
(* ===================================================================== *)

Module DisplayFacts.
Import Display.
Local Open Scope nat_scope.

(** Group-of-four arithmetic. *)
Lemma group_of_four (i j : nat) :
  i mod 4 = 0 ->
  (4 * (j / 4) = i <-> i <= j < i + 4) /\
  (i <= j < i + 4 -> (j mod 4 = 3 <-> j = i + 3)).
Proof.
  intros Hi.
  pose proof (Nat.div_mod_eq j 4). pose proof (Nat.mod_upper_bound j 4).
  pose proof (Nat.div_mod_eq i 4). lia.
Qed.

Lemma copyPixel_length (frame data : list byte) (i : nat) :
  length (copyPixel frame data i) = length data.
Proof. unfold copyPixel. rewrite !length_insert. reflexivity. Qed.

(** One pass of the loop body writes the group starting at [i] and
    nothing else. *)
Lemma copyPixel_lookup (frame data : list byte) (i j : nat) :
  i mod 4 = 0 ->
  copyPixel frame data i !! j =
  if decide (j < length data /\ 4 * (j / 4) = i)
  then Some (stored frame j) else data !! j.
Proof.
  intros Hi. destruct (group_of_four i j Hi) as [Hg H3].
  unfold copyPixel, stored.
  rewrite !list_lookup_insert, !length_insert.
  repeat case_decide; destruct (Nat.eqb_spec (j mod 4) 3);
    try reflexivity; try (exfalso; lia);
    try (f_equal; f_equal; lia).
Qed.

Lemma fold_copyPixel_length (frame : list byte) (idx : list nat) :
  forall data : list byte,
    length (fold_left (copyPixel frame) idx data) = length data.
Proof.
  induction idx as [| i idx IH]; intros data; [reflexivity |].
  cbn [fold_left]. rewrite IH. apply copyPixel_length.
Qed.

(** The loop over a list of group starts writes exactly those groups. *)
Lemma fold_copyPixel_lookup (frame : list byte) (idx : list nat) :
  forall (data : list byte) (j : nat),
    Forall (fun i => i mod 4 = 0) idx ->
    fold_left (copyPixel frame) idx data !! j =
    if decide (j < length data /\ 4 * (j / 4) ∈ idx)
    then Some (stored frame j) else data !! j.
Proof.
  induction idx as [| i idx IH]; intros data j Hidx.
  - cbn [fold_left]. case_decide as H; [| reflexivity].
    destruct H as [_ H]. inversion H.
  - inversion Hidx as [| ? ? Hi Hrest]; subst.
    cbn [fold_left]. rewrite (IH _ _ Hrest), copyPixel_length.
    rewrite copyPixel_lookup by exact Hi.
    repeat case_decide; try reflexivity; exfalso;
      repeat match goal with
        | H : context [_ ∈ _ :: _] |- _ => rewrite elem_of_cons in H
        end;
      intuition congruence.
Qed.

Lemma loopIndices_spec (n i : nat) :
  i ∈ loopIndices n <-> i < n /\ i mod 4 = 0.
Proof.
  unfold loopIndices. rewrite list_elem_of_filter, elem_of_seq. lia.
Qed.

(** On an image whose length is a multiple of four the loop stores every
    byte. *)
Lemma convert_lookup (frame data : list byte) (j : nat) :
  length data mod 4 = 0 -> j < length data ->
  convert frame data !! j = Some (stored frame j).
Proof.
  intros Hlen Hj. unfold convert. rewrite fold_copyPixel_lookup.
  - case_decide as H; [reflexivity | exfalso]. apply H. split; [exact Hj |].
    apply loopIndices_spec.
    pose proof (Nat.div_mod_eq j 4). pose proof (Nat.mod_upper_bound j 4).
    pose proof (Nat.div_mod_eq (length data) 4).
    split; [lia |]. rewrite Nat.mul_comm. apply Nat.Div0.mod_mul.
  - apply Forall_forall. intros i Hi. apply loopIndices_spec in Hi. tauto.
Qed.

Lemma convert_length (frame data : list byte) :
  length (convert frame data) = length data.
Proof. apply fold_copyPixel_length. Qed.

(** Only the bytes of the frame below the image's length are read. *)
Lemma copyPixel_prefix (frame frame' data : list byte) (i : nat) :
  take (length data) frame' = take (length data) frame ->
  copyPixel frame' data i = copyPixel frame data i.
Proof.
  intros Htake.
  assert (Hrd : forall j, j < length data -> rd frame' j = rd frame j).
  { intros j Hj. unfold rd.
    rewrite <- (lookup_take_lt frame' (length data) j) by exact Hj.
    rewrite <- (lookup_take_lt frame (length data) j) by exact Hj.
    rewrite Htake. reflexivity. }
  unfold copyPixel.
  assert (Hins : forall (l : list byte) (j : nat),
             length l = length data ->
             <[j := rd frame' j]> l = <[j := rd frame j]> l).
  { intros l j Hl. destruct (Nat.lt_ge_cases j (length data)) as [Hj | Hj].
    - rewrite Hrd by exact Hj. reflexivity.
    - rewrite !list_insert_ge by lia. reflexivity. }
  rewrite (Hins data) by reflexivity.
  rewrite (Hins (<[i + 0 := _]> data)) by (rewrite length_insert; reflexivity).
  rewrite (Hins (<[i + 1 := _]> _)) by (rewrite !length_insert; reflexivity).
  reflexivity.
Qed.

Lemma fold_copyPixel_prefix (frame frame' : list byte) (idx : list nat) :
  forall data : list byte,
    take (length data) frame' = take (length data) frame ->
    fold_left (copyPixel frame') idx data = fold_left (copyPixel frame) idx data.
Proof.
  induction idx as [| i idx IH]; intros data Htake; [reflexivity |].
  cbn [fold_left]. rewrite (copyPixel_prefix frame frame') by exact Htake.
  apply IH. rewrite copyPixel_length. exact Htake.
Qed.

Lemma convert_prefix (frame frame' data : list byte) :
  take (length data) frame' = take (length data) frame ->
  convert frame' data = convert frame data.
Proof. intros H. unfold convert. apply fold_copyPixel_prefix. exact H. Qed.

Lemma image_length_mod4 (w h : nat) : (4 * w * h) mod 4 = 0.
Proof.
  replace (4 * w * h) with (w * h * 4) by lia. apply Nat.Div0.mod_mul.
Qed.

(** Pixel [i] of a converted image of [n] pixels. *)
Lemma converted_pixel (frame : list byte) (w h i : nat) :
  i < w * h ->
  pixel (convert frame (replicate (4 * w * h) x00)) i
  = Some (rd frame (4 * i), rd frame (4 * i + 1), rd frame (4 * i + 2), xff).
Proof.
  intros Hi. unfold pixel.
  rewrite !convert_lookup
    by (rewrite length_replicate; first [apply image_length_mod4 | lia]).
  unfold stored.
  replace ((4 * i) mod 4) with 0
    by (symmetry; rewrite Nat.mul_comm; apply Nat.Div0.mod_mul).
  replace ((4 * i + 1) mod 4) with 1
    by (symmetry; rewrite Nat.add_comm, Nat.mul_comm; apply Nat.Div0.mod_add).
  replace ((4 * i + 2) mod 4) with 2
    by (symmetry; rewrite Nat.add_comm, Nat.mul_comm; apply Nat.Div0.mod_add).
  replace ((4 * i + 3) mod 4) with 3
    by (symmetry; rewrite Nat.add_comm, Nat.mul_comm; apply Nat.Div0.mod_add).
  reflexivity.
Qed.

Lemma createImageData_pos (w h : nat) :
  0 < w -> 0 < h -> createImageData w h = Some (replicate (4 * w * h) x00).
Proof.
  intros Hw Hh. unfold createImageData.
  destruct (Nat.eqb_spec w 0); [lia |]. destruct (Nat.eqb_spec h 0); [lia |].
  reflexivity.
Qed.

(** Without any test on the buffer, [frameChange] shows the converted
    image. *)
Lemma frameChange_shows (frame : list byte) (c : Canvas) :
  0 < width c -> 0 < height c ->
  frameChange frame c =
  Some (mkCanvas (width c) (height c)
          (convert frame (replicate (4 * width c * height c) x00))).
Proof.
  intros Hw Hh. unfold frameChange.
  rewrite createImageData_pos by assumption. reflexivity.
Qed.

Lemma initialRender_shows (res : nat * nat) (frame : list byte) :
  0 < fst res -> 0 < snd res ->
  initialRender res frame =
  Some (mkCanvas (fst res) (snd res)
          (convert frame (replicate (4 * fst res * snd res) x00))).
Proof.
  intros Hw Hh. unfold initialRender; cbn [width height].
  rewrite createImageData_pos by assumption. reflexivity.
Qed.

(** A buffer of the declared size holds all four bytes of pixel [i]. *)
Lemma frame_bytes (frame : list byte) (n i : nat) :
  length frame = n * 4 -> i < n ->
  exists r g b a : byte,
    frame !! (4 * i) = Some r /\ frame !! (4 * i + 1) = Some g /\
    frame !! (4 * i + 2) = Some b /\ frame !! (4 * i + 3) = Some a.
Proof.
  intros Hlen Hi.
  destruct (lookup_lt_is_Some_2 frame (4 * i)) as [r Hr]; [lia |].
  destruct (lookup_lt_is_Some_2 frame (4 * i + 1)) as [g Hg]; [lia |].
  destruct (lookup_lt_is_Some_2 frame (4 * i + 2)) as [b Hb]; [lia |].
  destruct (lookup_lt_is_Some_2 frame (4 * i + 3)) as [a Ha]; [lia |].
  exists r, g, b, a. tauto.
Qed.

(** C6 -- frame conversion.  For every frame buffer of width*height*4
    bytes and every pixel [i] of the canvas, the image shown after
    [frameChange], and after the initial render in [render], has at pixel
    [i] the buffer's bytes 4i, 4i+1, 4i+2 as red, green, blue and 255 as
    alpha, whatever byte 4i+3 of the buffer is. *)
Theorem frame_conversion :
  (forall (frame : list byte) (c : Canvas) (i : nat),
      length frame = width c * height c * 4 -> i < width c * height c ->
      exists (c' : Canvas) (r g b a : byte),
        frameChange frame c = Some c' /\
        frame !! (4 * i) = Some r /\ frame !! (4 * i + 1) = Some g /\
        frame !! (4 * i + 2) = Some b /\ frame !! (4 * i + 3) = Some a /\
        pixel (shown c') i = Some (r, g, b, xff)) /\
  (forall (now : Z) (m : Widget.Model) (i : nat),
      length (Widget.frame m)
        = fst (Widget.resolution m) * snd (Widget.resolution m) * 4 ->
      i < fst (Widget.resolution m) * snd (Widget.resolution m) ->
      exists (ctl : Controller.Ctl) (canvas : Canvas) (r g b a : byte),
        Widget.render now m = Some (ctl, canvas) /\
        Widget.frame m !! (4 * i) = Some r /\
        Widget.frame m !! (4 * i + 1) = Some g /\
        Widget.frame m !! (4 * i + 2) = Some b /\
        Widget.frame m !! (4 * i + 3) = Some a /\
        pixel (shown canvas) i = Some (r, g, b, xff)).
Proof.
  split.
  - intros frame c i Hlen Hi.
    destruct (frame_bytes frame _ i Hlen Hi) as (r & g & b & a & Hr & Hg & Hb & Ha).
    eexists _, r, g, b, a.
    rewrite frameChange_shows by lia.
    repeat (split; [first [reflexivity | assumption] |]).
    cbn [shown]. rewrite converted_pixel by exact Hi.
    unfold rd. rewrite Hr, Hg, Hb. reflexivity.
  - intros now m i Hlen Hi.
    destruct (frame_bytes _ _ i Hlen Hi) as (r & g & b & a & Hr & Hg & Hb & Ha).
    unfold Widget.render. rewrite initialRender_shows by lia.
    eexists _, _, r, g, b, a.
    repeat (split; [first [reflexivity | assumption] |]).
    cbn [shown]. rewrite converted_pixel by exact Hi.
    unfold rd. rewrite Hr, Hg, Hb. reflexivity.
Qed.

Lemma frame_conversion_witness :
  exists (c' : Canvas) (r g b a : byte),
    frameChange Examples.rgbaFrame Examples.greyPixel = Some c' /\
    Examples.rgbaFrame !! (4 * 0) = Some r /\
    Examples.rgbaFrame !! (4 * 0 + 1) = Some g /\
    Examples.rgbaFrame !! (4 * 0 + 2) = Some b /\
    Examples.rgbaFrame !! (4 * 0 + 3) = Some a /\
    pixel (shown c') 0 = Some (r, g, b, xff).
Proof.
  apply (proj1 frame_conversion Examples.rgbaFrame Examples.greyPixel 0).
  - reflexivity.
  - cbn. lia.
Defined.

(** The same pixel comes out of the whole conversion by evaluation. *)
Lemma frameChange_rgbaFrame :
  frameChange Examples.rgbaFrame Examples.greyPixel
  = Some (mkCanvas 1 1 [x01; x02; x03; xff]).
Proof. vm_compute. reflexivity. Qed.

(** C7, as stated, fails: a buffer of three bytes for a 1 x 1 canvas
    (not a multiple of four, not width*height*4) is not skipped; the grey
    pixel shown before is replaced, and so it is by a buffer of eight
    bytes. *)
Lemma frameChange_malformed_redraws :
  length Examples.shortFrame mod 4 <> 0 /\
  length Examples.shortFrame
    <> width Examples.greyPixel * height Examples.greyPixel * 4 /\
  frameChange Examples.shortFrame Examples.greyPixel
    = Some (mkCanvas 1 1 [x01; x02; x03; xff]) /\
  frameChange Examples.shortFrame Examples.greyPixel <> Some Examples.greyPixel /\
  length Examples.longFrame
    <> width Examples.greyPixel * height Examples.greyPixel * 4 /\
  frameChange Examples.longFrame Examples.greyPixel
    = Some (mkCanvas 1 1 [x01; x02; x03; xff]).
Proof.
  repeat apply conj; try (vm_compute; reflexivity);
    vm_compute; discriminate.
Qed.

(** C7, amended -- no payload validation.  For every incoming frame
    buffer, of whatever length, on a canvas of nonzero size [frameChange]
    replaces the displayed image by the width*height*4-byte conversion:
    pixel [i] takes bytes 4i, 4i+1, 4i+2 of the buffer, 0 where the buffer
    has no such byte, and alpha 255; bytes of the buffer past
    width*height*4 are not read. *)
Theorem frameChange_unvalidated (frame : list byte) (c : Canvas) :
  0 < width c -> 0 < height c ->
  exists c' : Canvas,
    frameChange frame c = Some c' /\
    width c' = width c /\ height c' = height c /\
    length (shown c') = width c * height c * 4 /\
    (forall i : nat,
        i < width c * height c ->
        pixel (shown c') i
        = Some (rd frame (4 * i), rd frame (4 * i + 1),
                rd frame (4 * i + 2), xff)) /\
    (forall frame' : list byte,
        take (width c * height c * 4) frame'
          = take (width c * height c * 4) frame ->
        frameChange frame' c = Some c').
Proof.
  intros Hw Hh. eexists. rewrite frameChange_shows by assumption.
  split; [reflexivity |]. cbn [width height shown].
  split; [reflexivity |]. split; [reflexivity |]. split; [| split].
  - rewrite convert_length, length_replicate. lia.
  - intros i Hi. apply converted_pixel. exact Hi.
  - intros frame' Htake. rewrite frameChange_shows by assumption.
    do 2 f_equal. apply convert_prefix.
    + rewrite length_replicate. replace (4 * width c * height c) with
        (width c * height c * 4) by lia. exact Htake.
Qed.

Lemma frameChange_unvalidated_witness :
  exists c' : Canvas,
    frameChange Examples.shortFrame Examples.greyPixel = Some c' /\
    width c' = 1 /\ height c' = 1 /\ length (shown c') = 1 * 1 * 4 /\
    (forall i : nat,
        i < 1 * 1 ->
        pixel (shown c') i
        = Some (rd Examples.shortFrame (4 * i), rd Examples.shortFrame (4 * i + 1),
                rd Examples.shortFrame (4 * i + 2), xff)) /\
    (forall frame' : list byte,
        take (1 * 1 * 4) frame' = take (1 * 1 * 4) Examples.shortFrame ->
        frameChange frame' Examples.greyPixel = Some c').
Proof.
  apply (frameChange_unvalidated Examples.shortFrame Examples.greyPixel);
    cbn; lia.
Defined.

End DisplayFacts.

(* ===================================================================== *)
(** * Properties of the initial state *)
(* ===================================================================== *)

Module WidgetFacts.
Import VecMath Controller Display Widget.

(** [render] takes the radius from the model as it is, with no clamp. *)
Lemma render_radius (now : Z) (m : Model) (ctl : Ctl) (canvas : Canvas) :
  render now m = Some (ctl, canvas) ->
  v0 (cp ctl) = norm (vadd (camp m) (vscl (camf m) (-1))) /\
  cf ctl = camf m /\ cu ctl = camu m /\ lastMouseT ctl = now.
Proof.
  unfold render. destruct (initialRender _ _); [| discriminate].
  intros H. injection H as <- _. repeat split.
Qed.

(** A camera closer to the focal point than the minimum radius starts
    with that radius. *)
Lemma render_nearModel :
  exists (ctl : Ctl) (canvas : Canvas),
    render 0 Examples.nearModel = Some (ctl, canvas) /\
    v0 (cp ctl) = 1 / 200000.
Proof.
  unfold render, Examples.nearModel; cbn [resolution frame camp camf camu].
  rewrite DisplayFacts.initialRender_shows by (cbn; lia).
  eexists _, _. split; [reflexivity |].
  unfold cartToSphr, norm, vadd, vscl; cbn [cp v0 v1 v2].
  replace (_ + _ + _) with ((1 / 200000) * (1 / 200000)) by lra.
  apply sqrt_square. lra.
Qed.

End WidgetFacts.

(* ===================================================================== *)
(** * Further properties of the vector utilities *)
(* ===================================================================== *)

Module VecExtra.
Import VecMath Notions VecFacts.

Lemma norm_sqr_dot (x : Vec3) : norm x * norm x = dot x x.
Proof. apply norm_sqr. Qed.

Lemma norm_zero_iff (x : Vec3) : norm x = 0 <-> x = mkVec3 0 0 0.
Proof.
  split.
  - intros H. destruct (Req_dec_T (v0 x) 0) as [E0 | E0];
      [destruct (Req_dec_T (v1 x) 0) as [E1 | E1];
       [destruct (Req_dec_T (v2 x) 0) as [E2 | E2] |] |].
    + destruct x; cbn in *; subst; reflexivity.
    + exfalso. pose proof (norm_sqr x) as Hs. rewrite H in Hs. nra.
    + exfalso. pose proof (norm_sqr x) as Hs. rewrite H in Hs. nra.
    + exfalso. pose proof (norm_sqr x) as Hs. rewrite H in Hs. nra.
  - intros ->. unfold norm; cbn.
    replace (0 * 0 + 0 * 0 + 0 * 0) with 0 by ring. apply sqrt_0.
Qed.

(** Two vectors with equal squared lengths have equal norms. *)
Lemma norm_eq_of_sqr (x : Vec3) (a : R) :
  0 <= a -> dot x x = a * a -> norm x = a.
Proof.
  intros Ha H. unfold norm. fold (dot x x). rewrite H. apply sqrt_square, Ha.
Qed.

(** X1 -- the cross product is perpendicular to both arguments, changes
    sign when they are swapped, vanishes on equal arguments, and its
    squared length is |x|^2 |y|^2 - (x . y)^2. *)
Theorem cross_perpendicular (x y : Vec3) :
  dot (cross x y) x = 0 /\ dot (cross x y) y = 0 /\
  cross y x = vscl (cross x y) (-1) /\
  cross x x = mkVec3 0 0 0 /\
  dot (cross x y) (cross x y) = dot x x * dot y y - dot x y * dot x y.
Proof.
  unfold dot, cross, vscl; cbn [v0 v1 v2].
  repeat apply conj; try ring; f_equal; ring.
Qed.

Lemma normalize_norm (x : Vec3) :
  x <> mkVec3 0 0 0 -> norm (normalize x) = 1.
Proof.
  intros Hx. pose proof (norm_pos x Hx) as Hr.
  pose proof (norm_sqr x) as Hs.
  apply norm_eq_of_sqr; [lra |].
  unfold dot, normalize; cbn [v0 v1 v2].
  replace (v0 x / norm x * (v0 x / norm x) + v1 x / norm x * (v1 x / norm x)
           + v2 x / norm x * (v2 x / norm x))
    with ((v0 x * v0 x + v1 x * v1 x + v2 x * v2 x) / (norm x * norm x))
    by (field; lra).
  rewrite <- Hs. field. lra.
Qed.

(** X2 -- [normalize] of a nonzero vector has length 1 and the direction
    of the vector: scaled back by the norm it is the vector again. *)
Theorem normalize_unit (x : Vec3) :
  x <> mkVec3 0 0 0 ->
  norm (normalize x) = 1 /\ vscl (normalize x) (norm x) = x.
Proof.
  intros Hx. pose proof (norm_pos x Hx) as Hr.
  split; [apply normalize_norm, Hx |].
  apply Vec3_eq; unfold vscl, normalize; cbn [v0 v1 v2]; field; lra.
Qed.

Lemma normalize_unit_witness :
  norm (normalize (mkVec3 3 0 4)) = 1 /\
  vscl (normalize (mkVec3 3 0 4)) (norm (mkVec3 3 0 4)) = mkVec3 3 0 4.
Proof.
  apply (normalize_unit (mkVec3 3 0 4)).
  intros E. apply (f_equal v0) in E. simpl in E. lra.
Defined.

Lemma sphrToCart_norm (s : Vec3) : norm (sphrToCart s) = Rabs (v0 s).
Proof.
  apply norm_eq_of_sqr; [apply Rabs_pos |].
  unfold dot, sphrToCart; cbn [v0 v1 v2].
  pose proof (sin2_cos2 (v1 s)) as Ha. pose proof (sin2_cos2 (v2 s)) as He.
  unfold Rsqr in Ha, He.
  replace (Rabs (v0 s) * Rabs (v0 s)) with (v0 s * v0 s)
    by (rewrite <- Rabs_mult; symmetry; apply Rabs_right; nra).
  transitivity (v0 s * v0 s
                * ((sin (v1 s) * sin (v1 s) + cos (v1 s) * cos (v1 s))
                   * (cos (v2 s) * cos (v2 s))
                   + sin (v2 s) * sin (v2 s))); [ring |].
  rewrite Ha, Rmult_1_l, Rplus_comm, He. ring.
Qed.

Lemma vadd_cancel (x y : Vec3) : vadd (vadd x y) (vscl y (-1)) = x.
Proof. apply Vec3_eq; unfold vadd, vscl; cbn [v0 v1 v2]; ring. Qed.

(** X3 -- the Cartesian form of a spherical offset lies at distance
    |radius| from the origin, whatever the two angles; so every position
    the controller publishes is at distance |radius| from the focal point
    published with it. *)
Theorem norm_sphrToCart :
  (forall s : Vec3, norm (sphrToCart s) = Rabs (v0 s)) /\
  (forall s : Controller.Ctl,
      norm (vadd (fst (Controller.published s))
                 (vscl (snd (Controller.published s)) (-1)))
      = Rabs (v0 (Controller.cp s))).
Proof.
  split.
  - exact sphrToCart_norm.
  - intros s. unfold Controller.published; cbn [fst snd].
    rewrite vadd_cancel. apply sphrToCart_norm.
Qed.

(** X4 -- the azimuth is 2 PI periodic: adding whole turns to it does not
    move the Cartesian point, so the handlers need no modulo. *)
Theorem sphrToCart_azimuth_period (s : Vec3) (k : nat) :
  sphrToCart (mkVec3 (v0 s) (v1 s + 2 * INR k * PI) (v2 s)) = sphrToCart s.
Proof.
  unfold sphrToCart; cbn [v0 v1 v2]. rewrite sin_period, cos_period.
  reflexivity.
Qed.

Lemma atan_neg_arg (t : R) : t < 0 -> atan t < 0.
Proof. intros H. rewrite <- atan_0. apply atan_increasing, H. Qed.

Lemma atan_pos_arg (t : R) : 0 < t -> 0 < atan t.
Proof. intros H. rewrite <- atan_0. apply atan_increasing, H. Qed.

(** [Math.atan2] returns an angle in (-PI, PI]. *)
Lemma atan2_range (y x : R) : - PI < atan2 y x <= PI.
Proof.
  pose proof PI_RGT_0 as Hpi. unfold atan2.
  destruct (Rlt_dec 0 x) as [Hx | Hx].
  - pose proof (atan_bound (y / x)). lra.
  - destruct (Rlt_dec x 0) as [Hx' | Hx'].
    + pose proof (atan_bound (y / x)) as Hb.
      assert (Hinv : / x < 0) by (apply Rinv_lt_0_compat, Hx').
      destruct (Rle_dec 0 y) as [Hy | Hy].
      * assert (Hq : y / x <= 0) by (unfold Rdiv; nra).
        destruct Hq as [Hq | Hq].
        -- pose proof (atan_neg_arg _ Hq). lra.
        -- rewrite Hq, atan_0. lra.
      * assert (Hq : 0 < y / x) by (unfold Rdiv; nra).
        pose proof (atan_pos_arg _ Hq). lra.
    + destruct (Rlt_dec 0 y); [lra |]. destruct (Rlt_dec y 0); lra.
Qed.

(** X5 -- the spherical form of a nonzero vector has positive radius,
    azimuth in (-PI, PI] and elevation in [-PI/2, PI/2]. *)
Theorem cartToSphr_range (v : Vec3) :
  v <> mkVec3 0 0 0 ->
  0 < v0 (cartToSphr v) /\
  - PI < v1 (cartToSphr v) <= PI /\
  - (PI / 2) <= v2 (cartToSphr v) <= PI / 2.
Proof.
  intros Hv. unfold cartToSphr; cbn [v0 v1 v2].
  split; [apply norm_pos, Hv |].
  split; [apply atan2_range | apply asin_bound].
Qed.

Lemma cartToSphr_range_witness :
  0 < v0 (cartToSphr (mkVec3 3 0 4)) /\
  - PI < v1 (cartToSphr (mkVec3 3 0 4)) <= PI /\
  - (PI / 2) <= v2 (cartToSphr (mkVec3 3 0 4)) <= PI / 2.
Proof.
  apply (cartToSphr_range (mkVec3 3 0 4)).
  intros E. apply (f_equal v0) in E. simpl in E. lra.
Defined.

Lemma tan_shift_PI (a : R) : tan (a - PI) = tan a /\ tan (a + PI) = tan a.
Proof.
  unfold tan.
  rewrite sin_minus, cos_minus, neg_sin, neg_cos, sin_PI, cos_PI.
  replace (sin a * -1 - cos a * 0) with (- sin a) by ring.
  replace (cos a * -1 + sin a * 0) with (- cos a) by ring.
  unfold Rdiv. rewrite Rinv_opp. split; ring.
Qed.

(** The sign of the cosine places an angle of (-PI, PI]. *)
Lemma cos_pos_inv (a : R) :
  - PI < a <= PI -> 0 < cos a -> - (PI / 2) < a < PI / 2.
Proof.
  intros [Hl Hu] Hc. pose proof PI_RGT_0 as Hpi. split.
  - destruct (Rlt_dec (- (PI / 2)) a) as [H | H]; [exact H | exfalso].
    assert (Hc' : cos (- a) <= 0) by (apply cos_le_0; lra).
    rewrite cos_neg in Hc'. lra.
  - destruct (Rlt_dec a (PI / 2)) as [H | H]; [exact H | exfalso].
    assert (Hc' : cos a <= 0) by (apply cos_le_0; lra). lra.
Qed.

Lemma cos_nonpos_inv (a : R) :
  - PI < a <= PI -> cos a <= 0 ->
  (PI / 2 <= a /\ 0 < sin a) \/ (a <= - (PI / 2) /\ sin a < 0) \/
  (a = PI /\ sin a = 0).
Proof.
  intros [Hl Hu] Hc. pose proof PI_RGT_0 as Hpi.
  destruct (Rlt_dec a (PI / 2)) as [H1 | H1].
  - destruct (Rlt_dec (- (PI / 2)) a) as [H2 | H2].
    + pose proof (cos_gt_0 a H2 H1). lra.
    + right; left. split; [lra |]. apply sin_lt_0_var; lra.
  - destruct (Req_dec_T a PI) as [E | E].
    + right; right. subst a. split; [reflexivity | apply sin_PI].
    + left. split; [lra |]. apply sin_gt_0; lra.
Qed.

(** [atan2] recovers an angle of (-PI, PI] from a positive multiple of
    its sine and cosine. *)
Lemma atan2_sin_cos (k a : R) :
  0 < k -> - PI < a <= PI -> atan2 (k * sin a) (k * cos a) = a.
Proof.
  intros Hk Ha. pose proof PI_RGT_0 as Hpi. unfold atan2.
  assert (Hq : cos a <> 0 -> k * sin a / (k * cos a) = tan a)
    by (intros Hc; unfold tan; field; lra).
  destruct (Rlt_dec 0 (k * cos a)) as [Hx | Hx].
  - assert (Hc : 0 < cos a) by nra.
    rewrite Hq by lra. apply atan_tan, cos_pos_inv; assumption.
  - assert (Hc : cos a <= 0) by nra.
    destruct (cos_nonpos_inv a Ha Hc) as [[Hr Hs] | [[Hr Hs] | [Hr Hs]]].
    + destruct (Rlt_dec (k * cos a) 0) as [Hx' | Hx'].
      * destruct (Rle_dec 0 (k * sin a)) as [Hy | Hy]; [| nra].
        assert (Hne : a <> PI / 2)
          by (intros ->; rewrite cos_PI2 in Hx'; lra).
        rewrite Hq by nra. rewrite <- (proj1 (tan_shift_PI a)).
        rewrite atan_tan by lra. ring.
      * assert (Hc0 : cos a = 0) by nra.
        destruct (Rlt_dec 0 (k * sin a)) as [Hy | Hy]; [| nra].
        destruct (Req_dec_T a (PI / 2)) as [E | E]; [lra | exfalso].
        assert (cos a < 0) by (apply cos_lt_0; lra). lra.
    + destruct (Rlt_dec (k * cos a) 0) as [Hx' | Hx'].
      * destruct (Rle_dec 0 (k * sin a)) as [Hy | Hy]; [nra |].
        assert (Hne : a <> - (PI / 2))
          by (intros ->; rewrite cos_neg, cos_PI2 in Hx'; lra).
        rewrite Hq by nra. rewrite <- (proj2 (tan_shift_PI a)).
        rewrite atan_tan by lra. ring.
      * assert (Hc0 : cos a = 0) by nra.
        destruct (Rlt_dec 0 (k * sin a)) as [Hy | Hy]; [nra |].
        destruct (Rlt_dec (k * sin a) 0) as [Hy' | Hy']; [| nra].
        destruct (Req_dec_T a (- (PI / 2))) as [E | E]; [lra | exfalso].
        assert (cos (- a) < 0) by (apply cos_lt_0; lra).
        rewrite cos_neg in *. lra.
    + subst a. rewrite sin_PI, cos_PI in *.
      destruct (Rlt_dec (k * -1) 0) as [Hx' | Hx']; [| lra].
      destruct (Rle_dec 0 (k * 0)) as [Hy | Hy]; [| lra].
      replace (k * 0 / (k * -1)) with 0 by (field; lra).
      rewrite atan_0. ring.
Qed.

(** X6 -- the other round trip.  A spherical offset with positive
    radius, azimuth in (-PI, PI] and elevation strictly between the poles
    is recovered from its Cartesian form. *)
Theorem cartToSphr_sphrToCart (s : Vec3) :
  0 < v0 s -> - PI < v1 s <= PI -> - (PI / 2) < v2 s < PI / 2 ->
  cartToSphr (sphrToCart s) = s.
Proof.
  intros Hr Haz Hel.
  assert (Hn : norm (sphrToCart s) = v0 s)
    by (rewrite sphrToCart_norm; apply Rabs_right; lra).
  assert (Hc : 0 < cos (v2 s)) by (apply cos_gt_0; lra).
  apply Vec3_eq; unfold cartToSphr; rewrite Hn; cbn [v0 v1 v2].
  - reflexivity.
  - unfold sphrToCart; cbn [v0 v1 v2].
    replace (v0 s * sin (v1 s) * cos (v2 s))
      with (v0 s * cos (v2 s) * sin (v1 s)) by ring.
    replace (v0 s * cos (v1 s) * cos (v2 s))
      with (v0 s * cos (v2 s) * cos (v1 s)) by ring.
    apply atan2_sin_cos; [nra | exact Haz].
  - unfold sphrToCart; cbn [v0 v1 v2].
    replace (v0 s * sin (v2 s) / v0 s) with (sin (v2 s)) by (field; lra).
    apply asin_sin. lra.
Qed.

Lemma cartToSphr_sphrToCart_witness :
  cartToSphr (sphrToCart (mkVec3 100 0 1)) = mkVec3 100 0 1.
Proof.
  pose proof PI_RGT_0 as Hpi. pose proof PI2_1 as H1.
  apply (cartToSphr_sphrToCart (mkVec3 100 0 1)); cbn [v0 v1 v2]; lra.
Defined.

(** The elevation limit is short of the pole. *)
Lemma phiLim_lt_PI2 : Controller.phiLim < PI / 2.
Proof.
  pose proof (PI_2_3_7_ineq 0) as [H _].
  unfold sum_f_R0, tg_alt, PI_2_3_7_tg, Ratan_seq in H. simpl in H.
  unfold Controller.phiLim. lra.
Qed.

End VecExtra.

(* ===================================================================== *)
(** * Further properties of the handlers *)
(* ===================================================================== *)

Module CameraExtra.
Import VecMath Controller Notions VecFacts CameraFacts ThrottleFacts VecExtra.

Lemma handleMidDrag_cf (rect : Rect) (e : MouseEvent) (mt : Z) (s : Ctl) :
  cf (fst (handleMidDrag rect e mt s)) =
  pan (ndc_x (fst (getMouseDelta rect e s)))
      (ndc_y (fst (getMouseDelta rect e s))) s.
Proof.
  unfold handleMidDrag, getMouseDelta, updateCam; cbn -[pan Z.ltb].
  destruct (_ <? _)%Z; reflexivity.
Qed.

Lemma handleMidDrag_frame (rect : Rect) (e : MouseEvent) (mt : Z) (s : Ctl) :
  cp (fst (handleMidDrag rect e mt s)) = cp s /\
  cu (fst (handleMidDrag rect e mt s)) = cu s /\
  m0 (fst (handleMidDrag rect e mt s)) = getNDC rect e.
Proof.
  unfold handleMidDrag, getMouseDelta, updateCam; cbn -[pan Z.ltb getNDC].
  destruct (_ <? _)%Z; repeat split.
Qed.

(** X7 -- a drag in pixels.  When the pointer was last sampled at [e0],
    [handleDrag] at [e] lowers the azimuth by 5 radians per canvas width
    of rightward motion and raises the elevation by 5 radians per canvas
    height of downward motion, clamped to [-1.5175, 1.5175]; the canvas
    resolution does not enter. *)
Theorem handleDrag_pixels
    (rect : Rect) (e0 e : MouseEvent) (mt : Z) (s : Ctl) :
  rect_left rect <> rect_right rect -> rect_top rect <> rect_bottom rect ->
  m0 s = getNDC rect e0 ->
  cp (fst (handleDrag rect e mt s)) =
  mkVec3 (v0 (cp s))
         (v1 (cp s)
          - 5 * (clientX e - clientX e0) / (rect_right rect - rect_left rect))
         (Rmax (- (15175 / 10000))
            (Rmin (15175 / 10000)
               (v2 (cp s)
                + 5 * (clientY e - clientY e0)
                  / (rect_bottom rect - rect_top rect)))).
Proof.
  intros Hw Hh Hm. rewrite handleDrag_cp.
  unfold getMouseDelta; cbn [fst ndc_x ndc_y]. rewrite Hm.
  unfold orbit, getNDC, phiLim; cbn [ndc_x ndc_y].
  f_equal; [| f_equal; f_equal]; field; lra.
Qed.

Lemma handleDrag_pixels_witness :
  cp (fst (handleDrag Examples.rect100 (mkMouseEvent 10 0) 10
             (Examples.ctlAt (mkVec3 1 0 0)))) =
  mkVec3 (v0 (cp (Examples.ctlAt (mkVec3 1 0 0))))
         (v1 (cp (Examples.ctlAt (mkVec3 1 0 0)))
          - 5 * (clientX (mkMouseEvent 10 0) - clientX (mkMouseEvent 0 0))
            / (rect_right Examples.rect100 - rect_left Examples.rect100))
         (Rmax (- (15175 / 10000))
            (Rmin (15175 / 10000)
               (v2 (cp (Examples.ctlAt (mkVec3 1 0 0)))
                + 5 * (clientY (mkMouseEvent 10 0) - clientY (mkMouseEvent 0 0))
                  / (rect_bottom Examples.rect100 - rect_top Examples.rect100)))).
Proof.
  apply (handleDrag_pixels Examples.rect100 (mkMouseEvent 0 0)).
  - cbn. lra.
  - cbn. lra.
  - unfold getNDC, Examples.rect100, Examples.ctlAt; cbn. f_equal; lra.
Defined.

(** The azimuth after a sequence of drags, throttle taken out. *)
Lemma locals_drags (ds : list (Rect * MouseEvent)) :
  forall s : Ctl,
    v1 (cp (locals (drags ds) s))
    = v1 (cp s) - 5 * (ndc_x (m0 (locals (drags ds) s)) - ndc_x (m0 s)) /\
    v0 (cp (locals (drags ds) s)) = v0 (cp s) /\
    cf (locals (drags ds) s) = cf s.
Proof.
  induction ds as [| d ds IH]; intros s.
  - cbn. repeat split. lra.
  - unfold drags, locals in *; cbn [map fold_left].
    destruct (IH (applyLocal s (CDrag (fst d) (snd d)))) as (Ha & Hr & Hf).
    rewrite Ha, Hr, Hf. cbn. repeat split. lra.
Qed.

Lemma locals_drags_m0 (ds : list (Rect * MouseEvent)) (d : Rect * MouseEvent) :
  forall s : Ctl,
    m0 (locals (drags (ds ++ [d])) s) = getNDC (fst d) (snd d).
Proof.
  intros s. unfold drags, locals. rewrite map_app, fold_left_app. reflexivity.
Qed.

(** X8 -- drags are path independent in azimuth.  After any run made of
    [handleDrag] calls on proper rectangles, throttled or not, the azimuth
    has changed by -5 times the difference between the last pointer x and
    the x recorded before the run; radius and focal point are as
    before. *)
Theorem drag_path_independent
    (s : Ctl) (l : list (Z * Call))
    (ds : list (Rect * MouseEvent)) (d : Rect * MouseEvent) :
  Forall (fun tc => properCall (snd tc)) l ->
  map snd l = drags (ds ++ [d]) ->
  v1 (cp (fst (run s l)))
  = v1 (cp s) - 5 * (ndc_x (getNDC (fst d) (snd d)) - ndc_x (m0 s)) /\
  m0 (fst (run s l)) = getNDC (fst d) (snd d) /\
  v0 (cp (fst (run s l))) = v0 (cp s) /\
  cf (fst (run s l)) = cf s.
Proof.
  intros _ Hl. destruct (run_locals l s) as [T HT]. rewrite HT, Hl.
  cbn [cp cf m0 set_lastMouseT].
  destruct (locals_drags (ds ++ [d]) s) as (Ha & Hr & Hf).
  rewrite Ha, Hr, Hf, locals_drags_m0. repeat split.
Qed.

Lemma drag_path_independent_witness :
  v1 (cp (fst (run (Examples.ctlAt (mkVec3 1 0 0)) Examples.dragOutAndBack)))
  = v1 (cp (Examples.ctlAt (mkVec3 1 0 0)))
    - 5 * (ndc_x (getNDC Examples.rect100 (mkMouseEvent 0 0))
           - ndc_x (m0 (Examples.ctlAt (mkVec3 1 0 0)))).
Proof.
  apply (drag_path_independent (Examples.ctlAt (mkVec3 1 0 0))
           Examples.dragOutAndBack
           [(Examples.rect100, mkMouseEvent 70 40)]
           (Examples.rect100, mkMouseEvent 0 0)).
  - repeat constructor; cbn; lra.
  - reflexivity.
Defined.

Lemma truthy_None (o : option R) :
  truthy o = None <-> o = None \/ o = Some 0.
Proof.
  destruct o as [v |]; cbn.
  - destruct (Req_dec_T v 0) as [E | E].
    + subst. split; [right; reflexivity | reflexivity].
    + split; [discriminate | intros [H | H]; [discriminate | congruence]].
  - split; [left; reflexivity | reflexivity].
Qed.

Lemma truthy_Some (o : option R) (v : R) :
  truthy o = Some v <-> o = Some v /\ v <> 0.
Proof.
  destruct o as [w |]; cbn.
  - destruct (Req_dec_T w 0) as [E | E].
    + split; [discriminate | intros [H Hv]; congruence].
    + split; [intros H; injection H as <-; tauto | intros [H _]; exact H].
  - split; [discriminate | intros [H _]; discriminate].
Qed.

(** X9 -- wheel normalisation.  A nonzero [wheelDelta] wins and is
    divided by 40; otherwise a [detail] is negated; the normalised delta
    is 0 exactly when both fields are undefined or 0, and then
    [handleScroll] changes nothing and sends nothing, whatever the time. *)
Theorem wheel_normalisation (e : WheelEvent) :
  (forall w : R, wheelDelta e = Some w -> w <> 0 -> wheelNorm e = w / 40) /\
  (forall t : R,
      wheelDelta e = None \/ wheelDelta e = Some 0 ->
      detail e = Some t -> wheelNorm e = - t) /\
  (wheelNorm e = 0 <->
     (wheelDelta e = None \/ wheelDelta e = Some 0) /\
     (detail e = None \/ detail e = Some 0)) /\
  (wheelNorm e = 0 ->
   forall (mt : Z) (s : Ctl), handleScroll e mt s = (s, [])).
Proof.
  unfold wheelNorm, wheelScl.
  split; [| split; [| split]].
  - intros w Hw Hne.
    rewrite (proj2 (truthy_Some _ w) (conj Hw Hne)). reflexivity.
  - intros t Hw Ht. rewrite (proj2 (truthy_None _) Hw).
    destruct (truthy (detail e)) as [t' |] eqn:E.
    + apply truthy_Some in E as [E _]. congruence.
    + apply truthy_None in E as [E | E]; [congruence |].
      assert (t = 0) by congruence. lra.
  - destruct (truthy (wheelDelta e)) as [w |] eqn:Ew.
    + apply truthy_Some in Ew as [Ew Hne]. split.
      * intros H. exfalso. apply Hne.
        apply Rmult_eq_reg_r with (/ 40); [| lra]. unfold Rdiv in H. lra.
      * intros [[H | H] _]; [congruence |].
        assert (w = 0) by congruence. contradiction.
    + apply truthy_None in Ew.
      destruct (truthy (detail e)) as [t |] eqn:Et.
      * apply truthy_Some in Et as [Et Hne]. split.
        -- intros H. exfalso. lra.
        -- intros [_ [H | H]]; [congruence |].
           assert (t = 0) by congruence. contradiction.
      * apply truthy_None in Et. tauto.
  - intros H mt s. unfold handleScroll. fold wheelScl. fold (wheelNorm e).
    unfold wheelNorm, wheelScl in H. unfold wheelNorm, wheelScl.
    destruct (Req_dec_T _ 0); [reflexivity | contradiction].
Qed.

Lemma wheel_normalisation_witness :
  wheelNorm Examples.wheelIn = 40 / 40.
Proof.
  apply (proj1 (wheel_normalisation Examples.wheelIn) 40);
    [reflexivity | lra].
Defined.

(** Every handler keeps a valid spherical offset valid. *)
Lemma applyLocal_valid (s : Ctl) (c : Call) :
  validOffset (cp s) -> validOffset (cp (applyLocal s c)).
Proof.
  intros [Hr He]. destruct c as [rect e | rect e | rect e | e]; cbn.
  - split; assumption.
  - split; [exact Hr | apply clamp_range].
  - split; assumption.
  - destruct (Req_dec_T _ _); cbn; [split; assumption |].
    split; [apply Rmax_l | exact He].
Qed.

Lemma locals_valid (l : list Call) :
  forall s : Ctl, validOffset (cp s) -> validOffset (cp (locals l s)).
Proof.
  induction l as [| c l IH]; intros s H; [exact H |].
  unfold locals in *; cbn [fold_left]. apply IH, applyLocal_valid, H.
Qed.

(** X10 -- the controller keeps its offset valid.  If the radius is at
    least 0.00001 and the elevation within [-1.5175, 1.5175], they are so
    after every run of handlers on proper rectangles, whatever the events
    and times; in particular the radius stays positive and the elevation
    short of the poles. *)
Theorem run_keeps_offset_valid (s : Ctl) (l : list (Z * Call)) :
  Forall (fun tc => properCall (snd tc)) l ->
  1 / 100000 <= v0 (cp s) ->
  - (15175 / 10000) <= v2 (cp s) <= 15175 / 10000 ->
  1 / 100000 <= v0 (cp (fst (run s l))) /\
  - (15175 / 10000) <= v2 (cp (fst (run s l))) <= 15175 / 10000 /\
  0 < v0 (cp (fst (run s l))) /\
  - (PI / 2) < v2 (cp (fst (run s l))) < PI / 2.
Proof.
  intros _ Hr He. destruct (run_locals l s) as [T HT]. rewrite HT.
  cbn [cp set_lastMouseT].
  destruct (locals_valid (map snd l) s (conj Hr He)) as [Hr' He'].
  pose proof phiLim_lt_PI2 as Hp. unfold rlim, phiLim in *.
  repeat split; lra.
Qed.

Lemma run_keeps_offset_valid_witness :
  1 / 100000
  <= v0 (cp (fst (run (Examples.ctlAt (mkVec3 100 0 0)) Examples.burst))).
Proof.
  apply (run_keeps_offset_valid (Examples.ctlAt (mkVec3 100 0 0))
           Examples.burst);
    [repeat constructor | cbn; lra | cbn; lra].
Defined.

(** X11 -- the edges of the dolly.  Whatever the prior radius and delta,
    the radius after a Dolly update is at least 0.00001; a normalised
    delta of 20 or more on a nonnegative radius puts the radius at that
    minimum; zooming out (negative delta) from a radius at or above the
    minimum is never clamped and has no upper limit. *)
Theorem dolly_edges (d : R) (c : Vec3) :
  1 / 100000 <= v0 (dolly d c) /\
  (20 <= d -> 0 <= v0 c -> v0 (dolly d c) = 1 / 100000) /\
  (d < 0 -> 1 / 100000 <= v0 c ->
   v0 (dolly d c) = v0 c * (1 - 5 / 100 * d) /\ v0 c < v0 (dolly d c)).
Proof.
  unfold dolly, rlim, dScl; cbn [v0].
  split; [apply Rmax_l |]. split.
  - intros Hd Hc. apply Rmax_left. nra.
  - intros Hd Hc. rewrite Rmax_right by nra. split; [reflexivity | nra].
Qed.

Lemma dolly_edges_witness :
  v0 (dolly 20 (mkVec3 100 0 0)) = 1 / 100000.
Proof.
  apply (proj1 (proj2 (dolly_edges 20 (mkVec3 100 0 0)))); cbn; lra.
Defined.

Lemma normalize_as_vscl (x : Vec3) : normalize x = vscl x (/ norm x).
Proof. reflexivity. Qed.

Lemma dot_vscl_l (x y : Vec3) (k : R) : dot (vscl x k) y = k * dot x y.
Proof. unfold dot, vscl; cbn [v0 v1 v2]. ring. Qed.

Lemma dot_comm (x y : Vec3) : dot x y = dot y x.
Proof. unfold dot. ring. Qed.

Lemma cross_dot_l (x y : Vec3) : dot (cross x y) x = 0.
Proof. unfold dot, cross; cbn [v0 v1 v2]. ring. Qed.

Lemma cross_dot_r (x y : Vec3) : dot (cross x y) y = 0.
Proof. unfold dot, cross; cbn [v0 v1 v2]. ring. Qed.

Lemma cross_lagrange (x y : Vec3) :
  dot (cross x y) (cross x y) = dot x x * dot y y - dot x y * dot x y.
Proof. unfold dot, cross; cbn [v0 v1 v2]. ring. Qed.

Lemma dot_self_zero (x : Vec3) : dot x x = 0 -> x = mkVec3 0 0 0.
Proof.
  intros H. apply norm_zero_iff. unfold norm. fold (dot x x).
  rewrite H. apply sqrt_0.
Qed.

Lemma dot_normalize_self (x : Vec3) :
  x <> mkVec3 0 0 0 -> dot (normalize x) (normalize x) = 1.
Proof.
  intros Hx. rewrite <- norm_sqr_dot, (normalize_norm x Hx). ring.
Qed.

(** The screen basis of [handleMidDrag]: when the view direction and the
    up vector are not parallel, [h] and [v] are unit vectors,
    perpendicular to each other and to the view direction. *)
Lemma pan_basis (ccp up : Vec3) :
  cross ccp up <> mkVec3 0 0 0 ->
  let h := normalize (cross ccp up) in
  let v := normalize (cross ccp h) in
  cross ccp h <> mkVec3 0 0 0 /\
  dot h h = 1 /\ dot v v = 1 /\ dot h v = 0 /\
  dot h ccp = 0 /\ dot v ccp = 0.
Proof.
  intros Hw h v.
  assert (Hhh : dot h h = 1) by (apply dot_normalize_self, Hw).
  assert (Hhc : dot h ccp = 0).
  { unfold h. rewrite normalize_as_vscl, dot_vscl_l, cross_dot_l. ring. }
  assert (Hcc : dot ccp ccp <> 0).
  { intros H. apply Hw. rewrite (dot_self_zero ccp H).
    unfold cross; cbn [v0 v1 v2]. f_equal; ring. }
  assert (Hw2 : cross ccp h <> mkVec3 0 0 0).
  { intros H. apply Hcc. pose proof (cross_lagrange ccp h) as HL.
    rewrite H, Hhh, (dot_comm ccp h), Hhc in HL.
    unfold dot at 1 in HL; cbn [v0 v1 v2] in HL. lra. }
  repeat split.
  - exact Hw2.
  - exact Hhh.
  - apply dot_normalize_self, Hw2.
  - rewrite dot_comm. unfold v.
    rewrite normalize_as_vscl, dot_vscl_l, cross_dot_r. ring.
  - exact Hhc.
  - unfold v. rewrite normalize_as_vscl, dot_vscl_l, cross_dot_l. ring.
Qed.

(** A combination of two orthonormal vectors, scaled. *)
Lemma combination_sqr (h v : Vec3) (dx dy k : R) :
  dot h h = 1 -> dot v v = 1 -> dot h v = 0 ->
  dot (vscl (vadd (vscl h dx) (vscl v dy)) k)
      (vscl (vadd (vscl h dx) (vscl v dy)) k)
  = k * k * (dx * dx + dy * dy).
Proof.
  intros Hh Hv Hhv.
  transitivity (k * k * (dx * dx * dot h h + 2 * dx * dy * dot h v
                         + dy * dy * dot v v)).
  - unfold dot, vscl, vadd; cbn [v0 v1 v2]. ring.
  - rewrite Hh, Hv, Hhv. ring.
Qed.

Lemma combination_dot (h v c : Vec3) (dx dy k : R) :
  dot h c = 0 -> dot v c = 0 ->
  dot (vscl (vadd (vscl h dx) (vscl v dy)) k) c = 0.
Proof.
  intros Hh Hv.
  transitivity (k * (dx * dot h c + dy * dot v c)).
  - unfold dot, vscl, vadd; cbn [v0 v1 v2]. ring.
  - rewrite Hh, Hv. ring.
Qed.

Lemma pan_displacement (dx dy : R) (s : Ctl) :
  vadd (pan dx dy s) (vscl (cf s) (-1))
  = vscl (vadd (vscl (normalize (cross (sphrToCart (cp s)) (cu s))) dx)
               (vscl (normalize
                        (cross (sphrToCart (cp s))
                           (normalize (cross (sphrToCart (cp s)) (cu s)))))
                     dy))
         (v0 (cp s) * (1 / (125 / 100))).
Proof.
  unfold pan. apply Vec3_eq; unfold vadd, vscl; cbn [v0 v1 v2]; ring.
Qed.

(** X12 -- the pan.  On a proper rectangle, when the view direction is
    not parallel to the up vector, [handleMidDrag] moves the focal point
    perpendicular to the view direction by 0.8 |radius| times the length
    of the pointer's NDC delta, and leaves the spherical offset and the up
    vector as they were. *)
Theorem handleMidDrag_pan
    (rect : Rect) (e : MouseEvent) (mt : Z) (s : Ctl) :
  rect_left rect <> rect_right rect -> rect_top rect <> rect_bottom rect ->
  cross (sphrToCart (cp s)) (cu s) <> mkVec3 0 0 0 ->
  let s' := fst (handleMidDrag rect e mt s) in
  let md := fst (getMouseDelta rect e s) in
  let d := vadd (cf s') (vscl (cf s) (-1)) in
  cp s' = cp s /\ cu s' = cu s /\
  dot d (sphrToCart (cp s)) = 0 /\
  norm d = 8 / 10 * Rabs (v0 (cp s))
           * sqrt (ndc_x md * ndc_x md + ndc_y md * ndc_y md).
Proof.
  intros _ _ Hw s' md d.
  destruct (handleMidDrag_frame rect e mt s) as (Hcp & Hcu & _).
  destruct (pan_basis _ _ Hw) as (_ & Hhh & Hvv & Hhv & Hhc & Hvc).
  split; [exact Hcp |]. split; [exact Hcu |].
  unfold d, s'. rewrite handleMidDrag_cf, pan_displacement. fold md.
  split.
  - apply combination_dot; assumption.
  - apply norm_eq_of_sqr.
    + apply Rmult_le_pos; [apply Rmult_le_pos; [lra | apply Rabs_pos] |
                            apply sqrt_pos].
    + rewrite combination_sqr by assumption.
      set (q := ndc_x md * ndc_x md + ndc_y md * ndc_y md).
      assert (Hq : 0 <= q) by (unfold q; nra).
      pose proof (sqrt_sqrt q Hq) as Hs.
      assert (Ha : Rabs (v0 (cp s)) * Rabs (v0 (cp s)) = v0 (cp s) * v0 (cp s))
        by (rewrite <- Rabs_mult; apply Rabs_right; nra).
      transitivity (64 / 100 * (Rabs (v0 (cp s)) * Rabs (v0 (cp s)))
                    * (sqrt q * sqrt q)); [| field].
      rewrite Ha, Hs. field.
Qed.

Lemma handleMidDrag_pan_witness :
  cp (fst (handleMidDrag Examples.rect100 (mkMouseEvent 10 0) 10
             (Examples.ctlAt (mkVec3 100 0 0))))
  = cp (Examples.ctlAt (mkVec3 100 0 0)).
Proof.
  apply (handleMidDrag_pan Examples.rect100 (mkMouseEvent 10 0) 10
           (Examples.ctlAt (mkVec3 100 0 0))).
  - cbn. lra.
  - cbn. lra.
  - unfold Examples.ctlAt, sphrToCart, cross; cbn [cp cu v0 v1 v2].
    rewrite sin_0, cos_0. intros E. apply (f_equal v0) in E.
    cbn [v0] in E. lra.
Defined.

(** X13 -- a stationary pointer.  On a proper rectangle, a mouse handler
    run for the position the pointer was last sampled at moves nothing: [handleDrag] leaves an
    offset whose elevation is within the limits as it is, and
    [handleMidDrag] leaves the focal point as it is; yet either still
    publishes when the interval has passed. *)
Theorem stationary_pointer
    (rect : Rect) (e : MouseEvent) (mt : Z) (s : Ctl) :
  rect_left rect <> rect_right rect -> rect_top rect <> rect_bottom rect ->
  m0 s = getNDC rect e ->
  (- (15175 / 10000) <= v2 (cp s) <= 15175 / 10000 ->
   cp (fst (handleDrag rect e mt s)) = cp s) /\
  (cross (sphrToCart (cp s)) (cu s) <> mkVec3 0 0 0 ->
   cf (fst (handleMidDrag rect e mt s)) = cf s) /\
  ((50 < mt - lastMouseT s)%Z ->
   snd (handleDrag rect e mt s) <> [] /\
   snd (handleMidDrag rect e mt s) <> []).
Proof.
  intros _ _ Hm. split; [| split].
  - intros Hel. rewrite handleDrag_cp.
    unfold getMouseDelta; cbn [fst ndc_x ndc_y]. rewrite Hm.
    unfold orbit. apply Vec3_eq; cbn [v0 v1 v2]; [reflexivity | lra |].
    rewrite clamp_id by (unfold phiLim; lra). lra.
  - intros _. rewrite handleMidDrag_cf.
    unfold getMouseDelta; cbn [fst ndc_x ndc_y]. rewrite Hm.
    unfold pan. apply Vec3_eq; unfold vadd, vscl; cbn [v0 v1 v2]; ring.
  - intros Ht. apply Z.ltb_lt in Ht.
    pose proof (step_spec s mt (CDrag rect e)) as Hd.
    pose proof (step_spec s mt (CMidDrag rect e)) as Hp.
    cbn [step snd fst attempts andb] in Hd, Hp.
    change 50%Z with throttlems in Ht. rewrite Ht in Hd, Hp.
    rewrite Hd, Hp. split; discriminate.
Qed.

Lemma stationary_pointer_witness :
  cp (fst (handleDrag Examples.rect100 (mkMouseEvent 0 0) 10
             (Examples.ctlAt (mkVec3 1 0 0))))
  = cp (Examples.ctlAt (mkVec3 1 0 0)).
Proof.
  apply (stationary_pointer Examples.rect100 (mkMouseEvent 0 0) 10
           (Examples.ctlAt (mkVec3 1 0 0))).
  - cbn. lra.
  - cbn. lra.
  - unfold getNDC, Examples.rect100, Examples.ctlAt; cbn. f_equal; lra.
  - cbn. lra.
Defined.

Lemma applyLocal_cu (s : Ctl) (c : Call) : cu (applyLocal s c) = cu s.
Proof.
  destruct c; cbn; try reflexivity. destruct (Req_dec_T _ _); reflexivity.
Qed.

Lemma locals_cu (l : list Call) : forall s : Ctl, cu (locals l s) = cu s.
Proof.
  induction l as [| c l IH]; intros s; [reflexivity |].
  unfold locals in *; cbn [fold_left]. rewrite IH. apply applyLocal_cu.
Qed.

(** With the up vector (0,1,0), a view direction of positive radius and
    elevation short of the poles is not parallel to it. *)
Lemma cross_up_nonzero (c : Vec3) :
  0 < v0 c -> - (PI / 2) < v2 c < PI / 2 ->
  cross (sphrToCart c) (mkVec3 0 1 0) <> mkVec3 0 0 0.
Proof.
  intros Hr He Hz. assert (Hc : 0 < cos (v2 c)) by (apply cos_gt_0; lra).
  pose proof (f_equal v0 Hz) as H0. pose proof (f_equal v2 Hz) as H2.
  unfold cross, sphrToCart in H0, H2; cbn [v0 v1 v2] in H0, H2.
  pose proof (sin2_cos2 (v1 c)) as Hsc. unfold Rsqr in Hsc.
  assert (Hpos : 0 < v0 c * cos (v2 c)) by (apply Rmult_lt_0_compat; lra).
  assert (Hs : sin (v1 c) = 0).
  { apply Rmult_eq_reg_l with (v0 c * cos (v2 c)); lra. }
  assert (Hk : cos (v1 c) = 0).
  { apply Rmult_eq_reg_l with (v0 c * cos (v2 c)); lra. }
  rewrite Hs, Hk in Hsc. lra.
Qed.

(** X14 -- the pan never normalises a zero vector.  With up vector
    (0,1,0) and a valid offset to start from, after every run of handlers
    on proper rectangles both vectors [handleMidDrag] passes to
    [normalize] are nonzero: the radius and elevation clamps keep the view
    direction away from the up axis. *)
Theorem pan_never_degenerate (s : Ctl) (l : list (Z * Call)) :
  Forall (fun tc => properCall (snd tc)) l ->
  1 / 100000 <= v0 (cp s) ->
  - (15175 / 10000) <= v2 (cp s) <= 15175 / 10000 ->
  cu s = mkVec3 0 1 0 ->
  let s' := fst (run s l) in
  let ccp := sphrToCart (cp s') in
  cross ccp (cu s') <> mkVec3 0 0 0 /\
  cross ccp (normalize (cross ccp (cu s'))) <> mkVec3 0 0 0.
Proof.
  intros _ Hr He Hu s' ccp.
  assert (Hw : cross ccp (cu s') <> mkVec3 0 0 0).
  { unfold ccp, s'. destruct (run_locals l s) as [T HT]. rewrite HT.
    cbn [cp cu set_lastMouseT]. rewrite locals_cu, Hu.
    destruct (locals_valid (map snd l) s) as [Hr' He'];
      [split; assumption |].
    pose proof phiLim_lt_PI2 as Hp. unfold rlim, phiLim in *.
    apply cross_up_nonzero; lra. }
  split; [exact Hw | exact (proj1 (pan_basis _ _ Hw))].
Qed.

Lemma pan_never_degenerate_witness :
  cross (sphrToCart (cp (fst (run (Examples.ctlAt (mkVec3 100 0 0))
                               Examples.burst))))
        (cu (fst (run (Examples.ctlAt (mkVec3 100 0 0)) Examples.burst)))
  <> mkVec3 0 0 0.
Proof.
  apply (pan_never_degenerate (Examples.ctlAt (mkVec3 100 0 0)) Examples.burst);
    [repeat constructor | cbn; lra | cbn; lra | reflexivity].
Defined.

End CameraExtra.

(* ===================================================================== *)
(** * Further properties of the throttle *)
(* ===================================================================== *)

Module ThrottleExtra.
Import VecMath Controller ThrottleFacts.

Lemma inWindow_shift (a w lo : Z) (ts : list Z) :
  (a <= lo)%Z -> Forall (fun t => (lo <= t)%Z) ts ->
  inWindow a w ts = inWindow lo (a + w - lo) ts.
Proof.
  intros Hlo. induction 1 as [| t ts Ht _ IH]; [reflexivity |].
  destruct (decide (a <= t < a + w)%Z) as [Hin | Hout].
  - rewrite inWindow_cons_in by exact Hin.
    rewrite inWindow_cons_in by lia. rewrite IH. reflexivity.
  - rewrite inWindow_cons_out by exact Hout.
    rewrite inWindow_cons_out by lia. exact IH.
Qed.

Lemma spaced_rate (ts : list Z) :
  forall last a w : Z,
    (0 <= w)%Z -> spaced last ts ->
    (51 * Z.of_nat (length (inWindow a w ts)) <= w + 50)%Z.
Proof.
  induction ts as [| t ts IH]; intros last a w Hw H; [cbn; lia |].
  destruct H as [Ht Hs].
  destruct (decide (a <= t < a + w)%Z) as [Hin | Hout].
  - rewrite inWindow_cons_in by exact Hin.
    assert (Hlater : Forall (fun x => (t + 51 <= x)%Z) ts).
    { eapply Forall_impl; [exact (spaced_later ts t Hs) |]. cbn beta.
      intros x Hx. change throttlems with 50%Z in Hx. lia. }
    rewrite (inWindow_shift a w (t + 51)) by (first [lia | exact Hlater]).
    destruct (Z_lt_le_dec (a + w - (t + 51)) 0) as [Hneg | Hpos].
    + rewrite inWindow_none; [cbn; lia |].
      eapply Forall_impl; [exact Hlater |]. cbn beta. intros x Hx. lia.
    + specialize (IH t (t + 51)%Z (a + w - (t + 51))%Z Hpos Hs).
      cbn [length]. lia.
  - rewrite inWindow_cons_out by exact Hout. exact (IH t a w Hw Hs).
Qed.

(** X15 -- the publication rate.  In every run, with any clock, a window
    of [w] milliseconds holds at most (w + 50) / 51 publications: at most
    20 in any second. *)
Theorem publication_rate (s : Ctl) (l : list (Z * Call)) (a w : Z) :
  (0 <= w)%Z ->
  (51 * Z.of_nat (length (inWindow a w (pubTimes (snd (run s l)))))
   <= w + 50)%Z /\
  (w = 1000%Z ->
   (length (inWindow a w (pubTimes (snd (run s l)))) <= 20)%nat).
Proof.
  intros Hw.
  pose proof (spaced_rate _ (lastMouseT s) a w Hw (run_spaced l s)) as H.
  split; [exact H | intros ->; lia].
Qed.

Lemma publication_rate_witness :
  (length (inWindow 0 1000
             (pubTimes (snd (run (Examples.ctlAt (mkVec3 100 0 0))
                               Examples.burst)))) <= 20)%nat.
Proof.
  apply (proj2 (publication_rate (Examples.ctlAt (mkVec3 100 0 0))
                  Examples.burst 0 1000 ltac:(lia))).
  reflexivity.
Defined.

Lemma last_pub_default (t d : Z) (ts : list Z) :
  default d (last (t :: ts)) = default t (last ts).
Proof.
  rewrite last_cons. destruct (last ts); reflexivity.
Qed.

(** X16 -- the throttle clock.  After every run [lastMouseT] is the time
    of the run's last publication, or what it was before when the run
    published nothing; it never runs backwards. *)
Theorem lastMouseT_tracks_publication (s : Ctl) (l : list (Z * Call)) :
  lastMouseT (fst (run s l))
  = default (lastMouseT s) (last (pubTimes (snd (run s l)))) /\
  (lastMouseT s <= lastMouseT (fst (run s l)))%Z.
Proof.
  revert s. induction l as [| [t c] l IH]; intros s.
  - cbn. split; [reflexivity | lia].
  - rewrite run_cons. cbn [fst snd]. rewrite pubTimes_cons, step_spec.
    destruct (attempts c && (throttlems <? t - lastMouseT s)%Z) eqn:E;
      cbn [fst snd publishes publication].
    + apply andb_true_iff in E as [_ E]. apply Z.ltb_lt in E.
      destruct (IH (set_lastMouseT t (applyLocal s c))) as [H1 H2].
      cbn [lastMouseT set_lastMouseT] in H1, H2.
      rewrite last_pub_default. change throttlems with 50%Z in E.
      split; [exact H1 | lia].
    + destruct (IH (applyLocal s c)) as [H1 H2].
      rewrite applyLocal_lastMouseT in H1, H2. split; assumption.
Qed.

End ThrottleExtra.

(* ===================================================================== *)
(** * Properties of listener registration *)
(* ===================================================================== *)

Module ListenerFacts.
Import VecMath Controller Notions Listeners ThrottleFacts CameraFacts.
Local Open Scope nat_scope.

Lemma addEventListener_NoDup (h : Handler) (ls : list Handler) :
  NoDup ls -> NoDup (addEventListener h ls).
Proof.
  intros H. unfold addEventListener. case_decide as Hin; [exact H |].
  apply NoDup_app. split; [exact H |]. split.
  - intros x Hx Hx'. apply list_elem_of_singleton in Hx'. subst. tauto.
  - apply NoDup_singleton.
Qed.

Lemma addEventListener_elem (h h' : Handler) (ls : list Handler) :
  h' ∈ addEventListener h ls <-> h' = h \/ h' ∈ ls.
Proof.
  unfold addEventListener. case_decide as Hin.
  - split; [tauto | intros [-> | H]; assumption].
  - rewrite elem_of_app, list_elem_of_singleton. tauto.
Qed.

Lemma removeEventListener_elem (h h' : Handler) (ls : list Handler) :
  h' ∈ removeEventListener h ls <-> h' <> h /\ h' ∈ ls.
Proof.
  unfold removeEventListener.
  exact (list_elem_of_filter (fun x => x <> h) ls h').
Qed.

Lemma removeEventListener_NoDup (h : Handler) (ls : list Handler) :
  NoDup ls -> NoDup (removeEventListener h ls).
Proof. intros H. unfold removeEventListener. apply NoDup_filter, H. Qed.

Lemma dispatch_NoDup (ls : list Handler) (ev : DomEvent) :
  NoDup ls -> NoDup (fst (dispatch ls ev)).
Proof.
  intros H. destruct ev as [b rect e | b | rect e | e]; cbn [dispatch fst];
    try exact H;
    destruct (b =? 0)%Z; try destruct (b =? 1)%Z;
    auto using addEventListener_NoDup, removeEventListener_NoDup.
Qed.

Lemma dispatchAll_cons (ls : list Handler) (ev : DomEvent) (evs : list DomEvent) :
  dispatchAll ls (ev :: evs) =
  (fst (dispatchAll (fst (dispatch ls ev)) evs),
   snd (dispatch ls ev) ++ snd (dispatchAll (fst (dispatch ls ev)) evs)).
Proof.
  cbn [dispatchAll]. destruct (dispatch ls ev) as [ls1 cs]. cbn [fst snd].
  destruct (dispatchAll ls1 evs) as [ls2 cs']. reflexivity.
Qed.

Lemma NoDup_Handler_length (ls : list Handler) : NoDup ls -> length ls <= 2.
Proof.
  intros H.
  assert (Hsub : ls ⊆+ [HDrag; HMidDrag]).
  { apply NoDup_submseteq; [exact H |]. intros [] _.
    - apply elem_of_cons. left. reflexivity.
    - apply elem_of_cons. right. apply elem_of_cons. left. reflexivity. }
  apply submseteq_length in Hsub. exact Hsub.
Qed.

(** X17 -- listeners are never registered twice.  Starting without
    duplicates (as [render] does, with none), after any sequence of DOM
    events the ['mousemove'] listeners are without duplicates, so at most
    two, and a ['mousemove'] runs each registered handler once, at most
    two in all. *)
Theorem listeners_no_duplicates (evs : list DomEvent) (ls : list Handler) :
  NoDup ls ->
  NoDup (fst (dispatchAll ls evs)) /\
  length (fst (dispatchAll ls evs)) <= 2 /\
  (forall (rect : Rect) (e : MouseEvent),
      snd (dispatch (fst (dispatchAll ls evs)) (MouseMove rect e))
      = map (invoke rect e) (fst (dispatchAll ls evs)) /\
      length (snd (dispatch (fst (dispatchAll ls evs)) (MouseMove rect e)))
      <= 2).
Proof.
  intros H.
  assert (Hnd : NoDup (fst (dispatchAll ls evs))).
  { revert ls H. induction evs as [| ev evs IH]; intros ls H; [exact H |].
    rewrite dispatchAll_cons. cbn [fst]. apply IH, dispatch_NoDup, H. }
  pose proof (NoDup_Handler_length _ Hnd) as Hlen.
  split; [exact Hnd |]. split; [exact Hlen |].
  intros rect e. cbn [dispatch snd]. split; [reflexivity |].
  rewrite length_map. exact Hlen.
Qed.

Lemma listeners_no_duplicates_witness :
  length (fst (dispatchAll [] Examples.pressTwice)) <= 2.
Proof.
  apply (listeners_no_duplicates Examples.pressTwice []). apply NoDup_nil_2.
Defined.

(** X18 -- buttons attach and detach their handler.  Pressing button 0
    registers [handleDrag] and button 1 [handleMidDrag]; any other button
    registers nothing; releasing a button removes its handler, so that a
    later ['mousemove'] does not invoke it, and leaves the other handler's
    registration as it was. *)
Theorem buttons_attach_detach (ls : list Handler) :
  (forall (rect : Rect) (e : MouseEvent),
      HDrag ∈ fst (dispatch ls (MouseDown 0 rect e)) /\
      HMidDrag ∈ fst (dispatch ls (MouseDown 1 rect e))) /\
  (forall (b : Z) (rect : Rect) (e : MouseEvent),
      b <> 0%Z -> b <> 1%Z ->
      dispatch ls (MouseDown b rect e) = (ls, [CMouseDown rect e]) /\
      dispatch ls (MouseUp b) = (ls, [])) /\
  ((HDrag ∉ fst (dispatch ls (MouseUp 0))) /\
   (HMidDrag ∉ fst (dispatch ls (MouseUp 1)))) /\
  (forall (rect : Rect) (e : MouseEvent) (c : Call),
      c ∈ snd (dispatch (fst (dispatch ls (MouseUp 0))) (MouseMove rect e)) ->
      c = CMidDrag rect e /\ HMidDrag ∈ ls) /\
  (forall (rect : Rect) (e : MouseEvent) (c : Call),
      c ∈ snd (dispatch (fst (dispatch ls (MouseUp 1))) (MouseMove rect e)) ->
      c = CDrag rect e /\ HDrag ∈ ls).
Proof.
  split; [| split; [| split; [| split]]].
  - intros rect e. cbn [dispatch fst Z.eqb].
    split; apply addEventListener_elem; left; reflexivity.
  - intros b rect e H0 H1. cbn [dispatch].
    destruct (Z.eqb_spec b 0); [contradiction |].
    destruct (Z.eqb_spec b 1); [contradiction |]. split; reflexivity.
  - cbn [dispatch fst Z.eqb].
    split; intros H; apply removeEventListener_elem in H; tauto.
  - intros rect e c Hc. cbn [dispatch fst snd Z.eqb] in Hc.
    apply list_elem_of_fmap in Hc as (h & -> & Hh).
    apply removeEventListener_elem in Hh as [Hne Hh].
    destruct h; [contradiction | split; [reflexivity | exact Hh]].
  - intros rect e c Hc. cbn [dispatch fst snd Z.eqb] in Hc.
    apply list_elem_of_fmap in Hc as (h & -> & Hh).
    apply removeEventListener_elem in Hh as [Hne Hh].
    destruct h; [split; [reflexivity | exact Hh] | contradiction].
Qed.

Lemma buttons_attach_detach_witness :
  dispatch [HDrag] (MouseDown 2 Examples.rect100 (mkMouseEvent 0 0))
  = ([HDrag], [CMouseDown Examples.rect100 (mkMouseEvent 0 0)]).
Proof.
  apply (proj1 (proj2 (buttons_attach_detach [HDrag])) 2%Z); discriminate.
Defined.

(** Events other than a button press leave an empty registration empty
    and reach only the wheel handler. *)
Lemma hover_calls (evs : list DomEvent) :
  (forall (b : Z) (rect : Rect) (e : MouseEvent),
      MouseDown b rect e ∉ evs) ->
  fst (dispatchAll [] evs) = [] /\
  Forall (fun c => exists e, c = CScroll e) (snd (dispatchAll [] evs)).
Proof.
  induction evs as [| ev evs IH]; intros Hno.
  - split; [reflexivity | constructor].
  - assert (Hno' : forall b rect e, MouseDown b rect e ∉ evs).
    { intros b rect e H. apply (Hno b rect e). apply elem_of_cons. tauto. }
    destruct (IH Hno') as [IH1 IH2].
    rewrite dispatchAll_cons.
    destruct ev as [b rect e | b | rect e | e].
    + exfalso. apply (Hno b rect e). apply elem_of_cons. left. reflexivity.
    + assert (Hd : dispatch [] (MouseUp b) = ([], [])).
      { cbn [dispatch]. destruct (b =? 0)%Z; [reflexivity |].
        destruct (b =? 1)%Z; reflexivity. }
      rewrite Hd. cbn [fst snd app]. split; assumption.
    + cbn [dispatch fst snd map app]. split; assumption.
    + cbn [dispatch fst snd app]. split; [exact IH1 |].
      constructor; [exists e; reflexivity | exact IH2].
Qed.

Lemma locals_scrolls (l : list Call) :
  Forall (fun c => exists e, c = CScroll e) l ->
  forall s : Ctl,
    v1 (cp (locals l s)) = v1 (cp s) /\ v2 (cp (locals l s)) = v2 (cp s) /\
    cf (locals l s) = cf s /\ m0 (locals l s) = m0 s.
Proof.
  induction 1 as [| c l [e ->] _ IH]; intros s; [repeat split |].
  unfold locals in *; cbn [fold_left].
  destruct (IH (applyLocal s (CScroll e))) as (H1 & H2 & H3 & H4).
  rewrite H1, H2, H3, H4. cbn [applyLocal].
  destruct (Req_dec_T _ _); repeat split.
Qed.

(** X19 -- hovering is inert.  After DOM events without a button press,
    whatever their timing, azimuth, elevation and focal point are as
    before: pointer motion with no button held, and button releases, never
    turn or move the camera; only the wheel acts, on the radius. *)
Theorem hover_is_inert
    (evs : list DomEvent) (l : list (Z * Call)) (s : Ctl) :
  (forall (b : Z) (rect : Rect) (e : MouseEvent),
      MouseDown b rect e ∉ evs) ->
  map snd l = snd (dispatchAll [] evs) ->
  v1 (cp (fst (run s l))) = v1 (cp s) /\
  v2 (cp (fst (run s l))) = v2 (cp s) /\
  cf (fst (run s l)) = cf s /\
  m0 (fst (run s l)) = m0 s.
Proof.
  intros Hno Hl. destruct (run_locals l s) as [T HT]. rewrite HT, Hl.
  cbn [cp cf m0 set_lastMouseT].
  apply locals_scrolls. apply (proj2 (hover_calls evs Hno)).
Qed.

Lemma hover_is_inert_witness :
  cf (fst (run (Examples.ctlAt (mkVec3 100 0 0)) Examples.hoverCalls))
  = cf (Examples.ctlAt (mkVec3 100 0 0)).
Proof.
  apply (hover_is_inert Examples.hover Examples.hoverCalls
           (Examples.ctlAt (mkVec3 100 0 0))).
  - intros b rect e H. unfold Examples.hover in H.
    repeat (apply elem_of_cons in H as [H | H]; [discriminate |]).
    inversion H.
  - reflexivity.
Defined.

End ListenerFacts.

(* ===================================================================== *)
(** * Handlers sharing one event; the initial state; the alpha channel *)
(* ===================================================================== *)

Module SessionFacts.
Import VecMath Controller Notions Listeners Display Widget.
Import VecFacts CameraFacts ThrottleFacts DisplayFacts.

(** X20 -- with both buttons held only the handler registered first
    acts.  A ['mousemove'] then runs both handlers on the same event; the
    first updates the recorded pointer position, so the second sees a zero
    delta: after drag-then-pan the focal point is as before, after
    pan-then-drag the spherical offset is as before (for a proper
    rectangle, a valid offset and up vector (0,1,0)). *)
Theorem both_buttons_first_wins
    (rect : Rect) (e : MouseEvent) (s : Ctl) (l : list (Z * Call)) :
  rect_left rect <> rect_right rect -> rect_top rect <> rect_bottom rect ->
  1 / 100000 <= v0 (cp s) ->
  - (15175 / 10000) <= v2 (cp s) <= 15175 / 10000 ->
  cu s = mkVec3 0 1 0 ->
  (map snd l = snd (dispatch [HDrag; HMidDrag] (MouseMove rect e)) ->
   cf (fst (run s l)) = cf s) /\
  (map snd l = snd (dispatch [HMidDrag; HDrag] (MouseMove rect e)) ->
   cp (fst (run s l)) = cp s).
Proof.
  intros _ _ _ Hel _. destruct (run_locals l s) as [T HT]. rewrite HT.
  cbn [cp cf set_lastMouseT]. split; intros Hl; rewrite Hl;
    cbn [dispatch snd map invoke]; unfold locals; cbn [fold_left].
  - unfold applyLocal, getMouseDelta, pan.
    cbn [m0 cp cf cu set_m0 set_cp set_cf ndc_x ndc_y].
    apply Vec3_eq; unfold vadd, vscl; cbn [v0 v1 v2]; ring.
  - unfold applyLocal, getMouseDelta, orbit.
    cbn [m0 cp cf cu set_m0 set_cp set_cf ndc_x ndc_y v0 v1 v2].
    apply Vec3_eq; cbn [v0 v1 v2]; [reflexivity | lra |].
    rewrite clamp_id by (unfold phiLim; lra). lra.
Qed.

Lemma both_buttons_first_wins_witness :
  cf (fst (run (Examples.ctlAt (mkVec3 100 0 0)) Examples.bothHeld))
  = cf (Examples.ctlAt (mkVec3 100 0 0)).
Proof.
  apply (both_buttons_first_wins Examples.rect100 (mkMouseEvent 30 30)
           (Examples.ctlAt (mkVec3 100 0 0)) Examples.bothHeld);
    cbn; first [reflexivity | lra].
Defined.

(** X21 -- the initial state is consistent with the model.  When the
    model's camera position differs from its focal point, the state
    [render] builds would publish exactly that position and focal point,
    with a positive radius, an azimuth in (-PI, PI] and an elevation in
    [-PI/2, PI/2]; nothing is published before the first handler runs
    more than 50 ms after [render]. *)
Theorem render_consistent
    (now : Z) (m : Model) (ctl : Ctl) (canvas : Canvas) :
  render now m = Some (ctl, canvas) ->
  camp m <> camf m ->
  published ctl = (camp m, camf m) /\
  0 < v0 (cp ctl) /\ - PI < v1 (cp ctl) <= PI /\
  - (PI / 2) <= v2 (cp ctl) <= PI / 2 /\
  (forall (t : Z) (c : Call),
      (t - now <= 50)%Z -> snd (step ctl (t, c)) = []).
Proof.
  intros Hrender Hne. unfold render in Hrender.
  destruct (initialRender _ _) as [cv |]; [| discriminate].
  injection Hrender as <- _.
  set (v := vadd (camp m) (vscl (camf m) (-1))).
  assert (Hv : v <> mkVec3 0 0 0).
  { intros Hz. apply Hne.
    pose proof (f_equal v0 Hz) as H0. pose proof (f_equal v1 Hz) as H1.
    pose proof (f_equal v2 Hz) as H2.
    unfold v, vadd, vscl in H0, H1, H2; cbn [v0 v1 v2] in H0, H1, H2.
    apply Vec3_eq; lra. }
  pose proof (norm_pos v Hv) as Hr.
  pose proof (radius_cos_elevation v Hr) as Hc.
  destruct (atan2_polar (v0 v) (v2 v)) as [Hs Hz].
  split; [| split; [| split; [| split]]].
  - unfold published; cbn [cp cf]. fold v. f_equal.
    assert (Hback : sphrToCart (cartToSphr v) = v).
    { apply Vec3_eq; unfold sphrToCart, cartToSphr; cbn [v0 v1 v2].
      - rewrite (Rmult_comm (norm v)), Rmult_assoc, Hc, Rmult_comm. exact Hs.
      - rewrite sin_asin by (apply ratio_bound; exact Hr). field. lra.
      - rewrite (Rmult_comm (norm v)), Rmult_assoc, Hc, Rmult_comm. exact Hz. }
    rewrite Hback. unfold v.
    apply Vec3_eq; unfold vadd, vscl; cbn [v0 v1 v2]; ring.
  - cbn [cp]. fold v. exact Hr.
  - cbn [cp]. fold v. apply VecExtra.atan2_range.
  - cbn [cp]. fold v. apply asin_bound.
  - intros t call Ht. rewrite step_spec. cbn [lastMouseT].
    apply Z.ltb_ge in Ht. change 50%Z with throttlems in Ht.
    rewrite Ht, andb_false_r. reflexivity.
Qed.

Lemma render_consistent_witness :
  published Examples.nearCtl
  = (camp Examples.nearModel, camf Examples.nearModel).
Proof.
  apply (render_consistent 0 Examples.nearModel Examples.nearCtl
           Examples.nearCanvas).
  - reflexivity.
  - intros E. apply (f_equal v2) in E. cbn in E. lra.
Defined.

End SessionFacts.

Module DisplayExtra.
Import Display DisplayFacts.
Local Open Scope nat_scope.

Lemma stored_ext (frame frame' : list byte) (j : nat) :
  (forall k : nat, k mod 4 <> 3 -> frame !! k = frame' !! k) ->
  stored frame j = stored frame' j.
Proof.
  intros H. unfold stored, rd.
  destruct (Nat.eqb_spec (j mod 4) 3) as [E | E]; [reflexivity |].
  rewrite (H j E). reflexivity.
Qed.

Lemma convert_ext (frame frame' data : list byte) :
  length data mod 4 = 0 ->
  (forall k : nat, k mod 4 <> 3 -> frame !! k = frame' !! k) ->
  convert frame data = convert frame' data.
Proof.
  intros Hlen H. apply list_eq. intros j.
  destruct (Nat.lt_ge_cases j (length data)) as [Hj | Hj].
  - rewrite !convert_lookup by assumption.
    rewrite (stored_ext frame frame' j H). reflexivity.
  - rewrite !lookup_ge_None_2 by (rewrite convert_length; exact Hj).
    reflexivity.
Qed.

(** X22 -- the alpha channel is discarded.  Two frame buffers that agree
    on every byte outside the alpha positions 4i+3 (present or missing
    alike) give the same result of [frameChange] on every canvas, and
    every fourth byte of what is shown is 255. *)
Theorem alpha_discarded (frame frame' : list byte) (c : Canvas) :
  (forall k : nat, k mod 4 <> 3 -> frame !! k = frame' !! k) ->
  frameChange frame c = frameChange frame' c /\
  (forall (c' : Canvas) (i : nat),
      frameChange frame c = Some c' -> i < width c * height c ->
      shown c' !! (4 * i + 3) = Some xff).
Proof.
  intros H. unfold frameChange, createImageData.
  destruct ((width c =? 0) || (height c =? 0)); [split; [reflexivity |] |].
  - intros c' i Hc. discriminate.
  - split.
    + f_equal. f_equal. apply convert_ext; [| exact H].
      rewrite length_replicate. apply image_length_mod4.
    + intros c' i Hc Hi. injection Hc as <-. cbn [shown putImageData].
      rewrite convert_lookup.
      * unfold stored.
        replace ((4 * i + 3) mod 4) with 3
          by (symmetry; rewrite Nat.add_comm, Nat.mul_comm;
              apply Nat.Div0.mod_add).
        reflexivity.
      * rewrite length_replicate. apply image_length_mod4.
      * rewrite length_replicate. lia.
Qed.

Lemma alpha_discarded_witness :
  frameChange Examples.rgbaFrame Examples.greyPixel
  = frameChange Examples.rgbFrame Examples.greyPixel.
Proof.
  apply (alpha_discarded Examples.rgbaFrame Examples.rgbFrame
           Examples.greyPixel).
  intros [| [| [| [| k]]]] Hk; try reflexivity. exfalso. apply Hk. reflexivity.
Defined.

End DisplayExtra.
